(** * Change making: greedy and dynamic-programming decomposition

    A shallow embedding of [find_coins.py].  Python integers are [Z];
    Python lists are [list] with Python's indexing rules (negative indices
    count from the end, anything else out of range raises [IndexError]);
    the returned [dict] is an insertion-ordered association list with
    unique keys; exceptions are an explicit [outcome]; the [while] loop of
    the reconstruction runs on fuel. *)

From Stdlib Require Import ZArith Lia.
From stdpp Require Import base decidable option list numbers sorting.

Local Open Scope Z_scope.

(** ** Exceptions *)

Inductive exn := IndexError | ZeroDivisionError.

Inductive outcome (A : Type) :=
  | Ok (a : A)
  | Raise (e : exn).
Arguments Ok {A} a.
Arguments Raise {A} e.

#[global] Instance outcome_ret : MRet outcome := @Ok.
#[global] Instance outcome_bind : MBind outcome := λ A B f m,
  match m with
  | Ok a => f a
  | Raise e => Raise e
  end.

(** ** Python lists *)

(** The position that [l[i]] denotes: [i] itself when [0 <= i < len(l)],
    [len(l) + i] when [-len(l) <= i < 0], and [IndexError] otherwise. *)
Definition py_index {A} (l : list A) (i : Z) : outcome nat :=
  let n := Z.of_nat (length l) in
  if decide (0 ≤ i < n) then Ok (Z.to_nat i)
  else if decide (- n ≤ i < 0) then Ok (Z.to_nat (n + i))
  else Raise IndexError.

(** [l[i]] *)
Definition py_get {A} (l : list A) (i : Z) : outcome A :=
  k ← py_index l i;
  match l !! k with
  | Some x => Ok x
  | None => Raise IndexError
  end.

(** [l[i] = x] *)
Definition py_set {A} (l : list A) (i : Z) (x : A) : outcome (list A) :=
  k ← py_index l i; Ok (<[k:=x]> l).

(** [[x] * n]: the empty list when [n <= 0]. *)
Definition py_repeat {A} (x : A) (n : Z) : list A := replicate (Z.to_nat n) x.

(** [range(lo, hi)] *)
Definition py_range (lo hi : Z) : list Z := seqZ lo (hi - lo).

(** [for x in xs: st = body(st, x)], stopping at the first exception. *)
Fixpoint for_each {S X} (body : S → X → outcome S) (xs : list X) (st : S)
  : outcome S :=
  match xs with
  | [] => Ok st
  | x :: xs' => st' ← body st x; for_each body xs' st'
  end.

(** ** Python dicts with integer keys and values *)

Abbreviation dict := (list (Z * Z)).

(** [d.get(k, default)] *)
Fixpoint dict_get (d : dict) (k default : Z) : Z :=
  match d with
  | [] => default
  | (k', v') :: d' => if decide (k' = k) then v' else dict_get d' k default
  end.

(** [d[k] = v]: an existing key keeps its place, a new one goes last. *)
Fixpoint dict_set (d : dict) (k v : Z) : dict :=
  match d with
  | [] => [(k, v)]
  | (k', v') :: d' =>
      if decide (k' = k) then (k', v) :: d' else (k', v') :: dict_set d' k v
  end.

(** [d[k] += 1] on a [defaultdict(int)] *)
Definition dict_incr (d : dict) (k : Z) : dict := dict_set d k (dict_get d k 0 + 1).

(** [dict(items)] *)
Definition dict_of_items (items : list (Z * Z)) : dict :=
  foldl (λ d kv, dict_set d kv.1 kv.2) [] items.

(** The order of Python tuples of two integers. *)
Definition item_le (a b : Z * Z) : Prop := a.1 < b.1 ∨ (a.1 = b.1 ∧ a.2 ≤ b.2).

#[global] Instance item_le_dec a b : Decision (item_le a b).
Proof. unfold item_le. apply _. Defined.

(** [sorted(d.items())] *)
Definition sorted_items (d : dict) : list (Z * Z) := merge_sort item_le d.

(** [sorted(coins, reverse=True)] *)
Definition sorted_reverse (coins : list Z) : list Z := merge_sort (flip Z.le) coins.

(** What a mapping encodes: the amount it adds up to and its number of coins. *)
Definition weighted_sum (d : dict) : Z := foldr (λ kv acc, kv.1 * kv.2 + acc) 0 d.
Definition total_count (d : dict) : Z := foldr (λ kv acc, kv.2 + acc) 0 d.

(** ** [find_coins_greedy] *)

(** The loop over the sorted denominations, on the running [amount] and
    the [result] built so far; [break] ends it with that [result]. *)
Fixpoint greedy_loop (coins : list Z) (amount : Z) (result : dict) : outcome dict :=
  match coins with
  | [] => Ok result
  | coin :: rest =>
      if decide (amount = 0) then Ok result
      else if decide (coin = 0) then Raise ZeroDivisionError
      else
        let count := amount `div` coin in
        if decide (count > 0)
        then greedy_loop rest (amount `mod` coin) (dict_set result coin count)
        else greedy_loop rest amount result
  end.

Definition find_coins_greedy (amount : Z) (coins : list Z) : outcome dict :=
  greedy_loop (sorted_reverse coins) amount [].

(** ** [find_min_coins] *)

(** An entry of [min_coins]: a Python integer or [float('inf')]. *)
Inductive cost :=
  | Fin (n : Z)
  | Inf.

(** [c + 1] *)
Definition cost_succ (c : cost) : cost :=
  match c with
  | Fin n => Fin (n + 1)
  | Inf => Inf
  end.

(** [a < b] *)
Definition cost_lt (a b : cost) : bool :=
  match a, b with
  | Fin x, Fin y => bool_decide (x < y)
  | Fin _, Inf => true
  | Inf, _ => false
  end.

(** [c == float('inf')] *)
Definition is_inf (c : cost) : bool :=
  match c with
  | Inf => true
  | Fin _ => false
  end.

Abbreviation tables := (list cost * list Z)%type.

(** The body of the inner loop, at index [i] for denomination [coin]. *)
Definition relax (coin : Z) (st : tables) (i : Z) : outcome tables :=
  let '(min_coins, coin_used) := st in
  a ← py_get min_coins (i - coin);
  b ← py_get min_coins i;
  if cost_lt (cost_succ a) b then
    a' ← py_get min_coins (i - coin);
    min_coins' ← py_set min_coins i (cost_succ a');
    coin_used' ← py_set coin_used i coin;
    Ok (min_coins', coin_used')
  else Ok st.

(** [for i in range(coin, amount + 1): ...] *)
Definition relax_coin (amount : Z) (st : tables) (coin : Z) : outcome tables :=
  for_each (relax coin) (py_range coin (amount + 1)) st.

(** Allocation of both tables followed by the two nested loops. *)
Definition build_tables (amount : Z) (coins : list Z) : outcome tables :=
  min_coins ← py_set (py_repeat Inf (amount + 1)) 0 (Fin 0);
  for_each (relax_coin amount) coins (min_coins, py_repeat 0 (amount + 1)).

(** The [while current_amount > 0] loop; [None] when the fuel runs out. *)
Fixpoint reconstruct (fuel : nat) (coin_used : list Z) (current_amount : Z)
    (result : dict) : option (outcome dict) :=
  if decide (current_amount > 0) then
    match fuel with
    | O => None
    | S fuel' =>
        match py_get coin_used current_amount with
        | Raise e => Some (Raise e)
        | Ok coin =>
            reconstruct fuel' coin_used (current_amount - coin) (dict_incr result coin)
        end
    end
  else Some (Ok result).

Definition find_min_coins (fuel : nat) (amount : Z) (coins : list Z)
  : option (outcome dict) :=
  match build_tables amount coins with
  | Raise e => Some (Raise e)
  | Ok (min_coins, coin_used) =>
      match py_get min_coins amount with
      | Raise e => Some (Raise e)
      | Ok c =>
          if is_inf c then Some (Ok [])
          else
            match reconstruct fuel coin_used amount [] with
            | None => None
            | Some (Raise e) => Some (Raise e)
            | Some (Ok result) => Some (Ok (dict_of_items (sorted_items result)))
            end
      end
  end.

(** [find_min_coins] ends with [r], on every run that has fuel for at least
    [amount] turns of the [while] loop. *)
Definition min_coins_returns (amount : Z) (coins : list Z) (r : outcome dict) : Prop :=
  ∀ fuel, (Z.to_nat amount ≤ fuel)%nat → find_min_coins fuel amount coins = Some r.

(** ** Specification vocabulary *)

Definition sum_list (l : list Z) : Z := foldr Z.add 0 l.

(** The coins [l], each drawn from [cs], pay exactly [i]. *)
Definition pays (cs l : list Z) (i : Z) : Prop :=
  Forall (λ c, c ∈ cs) l ∧ sum_list l = i.

(** A mapping that only uses denominations of [coins], each a non-negative
    number of times. *)
Definition combination (coins : list Z) (d : dict) : Prop :=
  Forall (λ kv, kv.1 ∈ coins ∧ 0 ≤ kv.2) d.

(** A well-formed result: every key is a denomination, appears once, and
    has a positive count. *)
Definition well_formed (coins : list Z) (d : dict) : Prop :=
  NoDup d.*1 ∧ Forall (λ kv, kv.1 ∈ coins ∧ 0 < kv.2) d.

(** [amount] can be formed from [coins], with unlimited supply of each. *)
Definition feasible (coins : list Z) (amount : Z) : Prop :=
  ∃ d, combination coins d ∧ weighted_sum d = amount.

(** The coins of a mapping written out one by one. *)
Definition expand (d : dict) : list Z :=
  flat_map (λ kv, replicate (Z.to_nat kv.2) kv.1) d.

(** The state of the tables while denomination [coin] is being processed,
    all indices below [k] done; [cs] are the denominations processed before. *)
Record relax_inv (amount : Z) (cs : list Z) (coin k : Z) (st : tables) : Prop := {
  inv_len_min : length st.1 = Z.to_nat (amount + 1);
  inv_len_used : length st.2 = Z.to_nat (amount + 1);
  inv_zero : st.1 !! 0%nat = Some (Fin 0);
  inv_choice : ∀ i n, 0 < i ≤ amount → st.1 !! Z.to_nat i = Some (Fin n) →
    ∃ c m, st.2 !! Z.to_nat i = Some c ∧ c ∈ coin :: cs ∧ 0 < c ≤ i ∧
           st.1 !! Z.to_nat (i - c) = Some (Fin m) ∧ m + 1 ≤ n;
  inv_old : ∀ i l, 0 ≤ i ≤ amount → pays cs l i →
    ∃ n, st.1 !! Z.to_nat i = Some (Fin n) ∧ n ≤ Z.of_nat (length l);
  inv_new : ∀ i l, 0 ≤ i ≤ amount → i < k → pays (coin :: cs) l i →
    ∃ n, st.1 !! Z.to_nat i = Some (Fin n) ∧ n ≤ Z.of_nat (length l)
}.

(** The state of the tables between two denominations. *)
Record tables_ok (amount : Z) (cs : list Z) (st : tables) : Prop := {
  ok_len_min : length st.1 = Z.to_nat (amount + 1);
  ok_len_used : length st.2 = Z.to_nat (amount + 1);
  ok_zero : st.1 !! 0%nat = Some (Fin 0);
  ok_choice : ∀ i n, 0 < i ≤ amount → st.1 !! Z.to_nat i = Some (Fin n) →
    ∃ c m, st.2 !! Z.to_nat i = Some c ∧ c ∈ cs ∧ 0 < c ≤ i ∧
           st.1 !! Z.to_nat (i - c) = Some (Fin m) ∧ m + 1 ≤ n;
  ok_opt : ∀ i l, 0 ≤ i ≤ amount → pays cs l i →
    ∃ n, st.1 !! Z.to_nat i = Some (Fin n) ∧ n ≤ Z.of_nat (length l)
}.

(** ** Python lists: indexing inside the bounds *)

Lemma py_get_inside {A} (l : list A) (i : Z) :
  0 ≤ i < Z.of_nat (length l) →
  ∃ x, l !! Z.to_nat i = Some x ∧ py_get l i = Ok x.
Proof.
  intros Hi.
  destruct (lookup_lt_is_Some_2 l (Z.to_nat i)) as [x Hx]; [lia|].
  exists x. split; [done|].
  unfold py_get, py_index. rewrite decide_True by done. simpl. by rewrite Hx.
Qed.

Lemma py_set_inside {A} (l : list A) (i : Z) (x : A) :
  0 ≤ i < Z.of_nat (length l) →
  py_set l i x = Ok (<[Z.to_nat i:=x]> l).
Proof.
  intros Hi. unfold py_set, py_index. by rewrite decide_True.
Qed.

Lemma py_get_raises {A} (l : list A) (i : Z) :
  Z.of_nat (length l) ≤ i → py_get l i = Raise IndexError.
Proof.
  intros Hi. unfold py_get, py_index.
  rewrite decide_False by lia. by rewrite decide_False by lia.
Qed.

Lemma py_get_exn {A} (l : list A) (i : Z) e : py_get l i = Raise e → e = IndexError.
Proof.
  unfold py_get, py_index. repeat case_decide; simpl; try congruence;
    destruct (l !! _); congruence.
Qed.

Lemma py_set_exn {A} (l : list A) (i : Z) x e : py_set l i x = Raise e → e = IndexError.
Proof. unfold py_set, py_index. repeat case_decide; simpl; congruence. Qed.

Lemma py_set_length {A} (l l' : list A) (i : Z) x :
  py_set l i x = Ok l' → length l' = length l.
Proof.
  unfold py_set, py_index. repeat case_decide; simpl; try congruence;
    intros [= <-]; apply length_insert.
Qed.

(** ** Sums of coins *)

Lemma sum_list_app l1 l2 : sum_list (l1 ++ l2) = sum_list l1 + sum_list l2.
Proof. induction l1 as [|x l1 IH]; simpl; [done|]. rewrite IH. lia. Qed.

Lemma sum_list_nonneg l : Forall (λ c, 0 < c) l → 0 ≤ sum_list l.
Proof. induction 1; simpl; lia. Qed.

Lemma sum_list_elem l c : Forall (λ c, 0 < c) l → c ∈ l → c ≤ sum_list l.
Proof.
  intros Hpos Hin. apply list_elem_of_split in Hin as (l1 & l2 & ->).
  apply Forall_app in Hpos as [H1 H2]. apply Forall_cons in H2 as [Hc H2].
  apply sum_list_nonneg in H1, H2. rewrite sum_list_app. simpl. lia.
Qed.

Lemma pays_positive cs l i :
  Forall (λ c, 0 < c) cs → pays cs l i → Forall (λ c, 0 < c) l.
Proof.
  intros Hcs [Hl _]. rewrite Forall_forall in Hcs.
  eapply Forall_impl; [exact Hl|]. simpl. auto.
Qed.

(** A payment over [coin :: cs] that does not use [coin] is one over [cs]. *)
Lemma pays_without cs coin l i :
  pays (coin :: cs) l i → coin ∉ l → pays cs l i.
Proof.
  intros [Hl Hs] Hnot. split; [|done].
  rewrite Forall_forall in Hl |- *. intros c Hc.
  specialize (Hl c Hc). apply elem_of_cons in Hl as [->|]; [done|done].
Qed.

(** Taking one [coin] out of a payment that uses it. *)
Lemma pays_remove cs coin l i :
  pays cs l i → coin ∈ l →
  ∃ l', pays cs l' (i - coin) ∧ Z.of_nat (length l) = Z.of_nat (length l') + 1.
Proof.
  intros [Hl Hs] Hin. apply list_elem_of_split in Hin as (l1 & l2 & ->).
  exists (l1 ++ l2). apply Forall_app in Hl as [H1 H2].
  apply Forall_cons in H2 as [_ H2]. split; [split|].
  - by apply Forall_app.
  - rewrite sum_list_app in *. simpl in Hs. lia.
  - rewrite !length_app. simpl. lia.
Qed.

(** ** The inner loop of [find_min_coins] *)

Section relax.
Context (amount : Z) (cs : list Z) (coin : Z).
Hypothesis Hcs : Forall (λ c, 0 < c) cs.
Hypothesis Hcoin : 0 < coin.

(** One iteration at index [k] does not raise and moves the invariant
    from [k] to [k + 1]. *)
Lemma relax_step st k :
  coin ≤ k ≤ amount →
  relax_inv amount cs coin k st →
  ∃ st', relax coin st k = Ok st' ∧ relax_inv amount cs coin (k + 1) st'.
Proof.
  intros Hk [Hlm Hlu Hz Hch Hold Hnew]. destruct st as [mc cu]. simpl in *.
  destruct (py_get_inside mc (k - coin)) as (a & Ha & Hga); [lia|].
  destruct (py_get_inside mc k) as (b & Hb & Hgb); [lia|].
  (* what the optimum over [coin :: cs] at [k] is bounded by *)
  assert (Hbound : ∀ l, pays (coin :: cs) l k →
    (∃ n, b = Fin n ∧ n ≤ Z.of_nat (length l)) ∨
    (∃ m, a = Fin m ∧ m + 1 ≤ Z.of_nat (length l))).
  { intros l Hl. destruct (decide (coin ∈ l)) as [Hin|Hin].
    - right. destruct (pays_remove _ _ _ _ Hl Hin) as (l' & Hl' & Hlen).
      destruct (Hnew (k - coin) l') as (m & Hm & Hle); [lia|lia|done|].
      exists m. split; [congruence|lia].
    - left. apply pays_without in Hl; [|done].
      destruct (Hold k l) as (n & Hn & Hle); [lia|done|].
      exists n. split; [congruence|lia]. }
  unfold relax. rewrite Hga. simpl. rewrite Hgb. simpl.
  destruct (cost_lt (cost_succ a) b) eqn:Hlt.
  - (* the entry at [k] improves *)
    destruct a as [m|]; [|done]. simpl in Hlt.
    rewrite py_set_inside by lia. simpl.
    rewrite py_set_inside by lia. simpl.
    eexists. split; [done|].
    assert (Hless : ∀ n, b = Fin n → m + 1 < n).
    { intros n ->. simpl in Hlt. by apply bool_decide_eq_true in Hlt. }
    split; simpl.
    + by rewrite length_insert.
    + by rewrite length_insert.
    + rewrite list_lookup_insert_ne by lia. done.
    + intros i n Hi. destruct (decide (i = k)) as [->|Hik].
      * rewrite list_lookup_insert_eq by lia. intros [= <-].
        exists coin, m. rewrite list_lookup_insert_eq by lia.
        rewrite list_lookup_insert_ne by lia.
        repeat split; [left|lia|lia|done|lia].
      * rewrite list_lookup_insert_ne by lia. intros Hn.
        destruct (Hch i n Hi Hn) as (c & m' & Hc & Hcin & Hcr & Hm' & Hle).
        rewrite (list_lookup_insert_ne cu) by lia.
        destruct (decide (i - c = k)) as [Heq|Hne].
        -- exists c, (m + 1). rewrite Heq, list_lookup_insert_eq by lia.
           rewrite Heq, Hb in Hm'. injection Hm' as ->.
           specialize (Hless _ eq_refl). repeat split; [done|done|lia|lia|lia].
        -- exists c, m'. rewrite list_lookup_insert_ne by lia. done.
    + intros i l Hi Hl. destruct (Hold i l Hi Hl) as (n & Hn & Hle).
      destruct (decide (i = k)) as [->|Hik].
      * exists (m + 1). rewrite list_lookup_insert_eq by lia.
        split; [done|]. rewrite Hb in Hn. injection Hn as ->.
        specialize (Hless _ eq_refl). lia.
      * exists n. by rewrite list_lookup_insert_ne by lia.
    + intros i l Hi Hik Hl. destruct (decide (i = k)) as [->|Hne].
      * exists (m + 1). rewrite list_lookup_insert_eq by lia.
        split; [done|].
        destruct (Hbound l Hl) as [(n & -> & Hle)|(m' & [= <-] & Hle)]; [|done].
        specialize (Hless _ eq_refl). lia.
      * rewrite list_lookup_insert_ne by lia. apply Hnew; [done|lia|done].
  - (* the entry at [k] stays *)
    eexists. split; [done|]. split; simpl; try done.
    intros i l Hi Hik Hl. destruct (decide (i = k)) as [->|Hne].
    + destruct (Hbound l Hl) as [(n & -> & Hle)|(m & -> & Hle)]; [by eauto|].
      destruct b as [n|]; [|done]. simpl in Hlt.
      apply bool_decide_eq_false in Hlt. exists n. split; [done|lia].
    + apply Hnew; [done|lia|done].
Qed.

(** The inner loop over [k, k + 1, ..., amount]. *)
Lemma relax_loop (len : nat) st k :
  coin ≤ k → k + Z.of_nat len = amount + 1 →
  relax_inv amount cs coin k st →
  ∃ st', for_each (relax coin) (seqZ k (Z.of_nat len)) st = Ok st' ∧
         relax_inv amount cs coin (amount + 1) st'.
Proof.
  revert st k. induction len as [|len IH]; intros st k Hk Hlen Hinv.
  - exists st. split; [done|]. by replace (amount + 1) with k by lia.
  - rewrite seqZ_cons by lia. simpl.
    destruct (relax_step st k) as (st1 & -> & Hinv1); [lia|done|]. simpl.
    replace (Z.pred (Z.of_nat (S len))) with (Z.of_nat len) by lia.
    apply IH; [lia|lia|done].
Qed.

(** Entering the loop: below [coin] no payment uses [coin]. *)
Lemma relax_inv_enter st :
  tables_ok amount cs st → relax_inv amount cs coin coin st.
Proof.
  intros [Hlm Hlu Hz Hch Hopt]. split; try done.
  - intros i n Hi Hn. destruct (Hch i n Hi Hn) as (c & m & ? & ? & ?).
    exists c, m. split; [done|]. split; [by right|done].
  - intros i l Hi Hlt Hl. apply Hopt; [done|].
    apply (pays_without cs coin); [done|]. intros Hin.
    assert (Hpos : Forall (λ c, 0 < c) l).
    { eapply pays_positive; [|exact Hl]. by constructor. }
    pose proof (sum_list_elem _ _ Hpos Hin). destruct Hl as [_ Hs]. lia.
Qed.

(** Leaving the loop. *)
Lemma relax_inv_leave st k :
  amount < k → relax_inv amount cs coin k st → tables_ok amount (coin :: cs) st.
Proof.
  intros Hk [Hlm Hlu Hz Hch Hold Hnew]. split; try done.
  intros i l Hi Hl. apply Hnew; [done|lia|done].
Qed.

(** Processing one denomination. *)
Lemma relax_coin_ok st :
  0 ≤ amount →
  tables_ok amount cs st →
  ∃ st', relax_coin amount st coin = Ok st' ∧ tables_ok amount (coin :: cs) st'.
Proof.
  intros Ha Hok. apply relax_inv_enter in Hok. unfold relax_coin, py_range.
  destruct (decide (coin ≤ amount)) as [Hle|Hgt].
  - destruct (relax_loop (Z.to_nat (amount + 1 - coin)) st coin)
      as (st' & Hrun & Hinv); [lia|lia|done|].
    exists st'. rewrite Z2Nat.id in Hrun by lia. split; [done|].
    eapply relax_inv_leave; [|done]. lia.
  - exists st. split.
    + unfold seqZ. by replace (Z.to_nat (amount + 1 - coin)) with 0%nat by lia.
    + eapply relax_inv_leave; [|done]. lia.
Qed.
End relax.

(** ** The outer loop and the finished tables *)

Lemma tables_ok_proper amount cs cs' st :
  (∀ c, c ∈ cs ↔ c ∈ cs') → tables_ok amount cs st → tables_ok amount cs' st.
Proof.
  intros Heq [Hlm Hlu Hz Hch Hopt]. split; try done.
  - intros i n Hi Hn. destruct (Hch i n Hi Hn) as (c & m & ? & ? & ?).
    exists c, m. split; [done|]. split; [by apply Heq|done].
  - intros i l Hi [Hl Hs]. apply Hopt; [done|]. split; [|done].
    eapply Forall_impl; [exact Hl|]. intros c. apply Heq.
Qed.

(** Freshly allocated tables: only the amount 0 is paid, with no coin. *)
Lemma tables_ok_init amount :
  0 ≤ amount →
  tables_ok amount [] (<[0%nat:=Fin 0]> (py_repeat Inf (amount + 1)), py_repeat 0 (amount + 1)).
Proof.
  intros Ha. unfold py_repeat. split; simpl.
  - by rewrite length_insert, length_replicate.
  - by rewrite length_replicate.
  - apply list_lookup_insert_eq. rewrite length_replicate. lia.
  - intros i n Hi. rewrite list_lookup_insert_ne by lia.
    intros [? _]%lookup_replicate. done.
  - intros i l Hi [Hl Hs]. destruct l as [|c l].
    + simpl in Hs. subst i. exists 0. split; [|done].
      apply list_lookup_insert_eq. rewrite length_replicate. lia.
    + apply Forall_cons in Hl as [Hc _]. by apply elem_of_nil in Hc.
Qed.

Lemma for_each_coins_ok amount rest : ∀ done st,
  0 ≤ amount →
  Forall (λ c, 0 < c) rest → Forall (λ c, 0 < c) done →
  tables_ok amount done st →
  ∃ st', for_each (relax_coin amount) rest st = Ok st' ∧
         tables_ok amount (reverse rest ++ done) st'.
Proof.
  induction rest as [|coin rest IH]; intros done st Ha Hrest Hdone Hok.
  - exists st. by split.
  - apply Forall_cons in Hrest as [Hcoin Hrest]. simpl.
    destruct (relax_coin_ok amount done coin Hdone Hcoin st Ha Hok) as (st1 & -> & Hok1).
    simpl. destruct (IH (coin :: done) st1) as (st' & Hrun & Hok'); try done.
    { by constructor. }
    exists st'. split; [done|]. by rewrite reverse_cons, <- app_assoc.
Qed.

Lemma build_tables_ok amount coins :
  0 ≤ amount → Forall (λ c, 0 < c) coins →
  ∃ st, build_tables amount coins = Ok st ∧ tables_ok amount coins st.
Proof.
  intros Ha Hcoins. unfold build_tables.
  rewrite py_set_inside by (unfold py_repeat; rewrite length_replicate; lia).
  simpl.
  destruct (for_each_coins_ok amount coins [] _ Ha Hcoins (Forall_nil_2 _) (tables_ok_init amount Ha))
    as (st & Hrun & Hok).
  exists st. split; [done|]. eapply tables_ok_proper; [|done].
  intros c. rewrite app_nil_r. apply elem_of_reverse.
Qed.

(** ** Dicts *)

Lemma weighted_sum_app d1 d2 :
  weighted_sum (d1 ++ d2) = weighted_sum d1 + weighted_sum d2.
Proof. induction d1 as [|kv d1 IH]; simpl; [done|]. rewrite IH. lia. Qed.

Lemma total_count_app d1 d2 :
  total_count (d1 ++ d2) = total_count d1 + total_count d2.
Proof. induction d1 as [|kv d1 IH]; simpl; [done|]. rewrite IH. lia. Qed.

Lemma weighted_sum_perm d1 d2 : d1 ≡ₚ d2 → weighted_sum d1 = weighted_sum d2.
Proof. induction 1; simpl; lia. Qed.

Lemma total_count_perm d1 d2 : d1 ≡ₚ d2 → total_count d1 = total_count d2.
Proof. induction 1; simpl; lia. Qed.

Lemma dict_set_fresh d k v : k ∉ d.*1 → dict_set d k v = d ++ [(k, v)].
Proof.
  induction d as [|[k' v'] d IH]; simpl; [done|]. intros Hk.
  apply not_elem_of_cons in Hk as [Hne Hk].
  rewrite decide_False by done. by rewrite IH.
Qed.

Lemma weighted_sum_set d k v :
  weighted_sum (dict_set d k v) = weighted_sum d + k * (v - dict_get d k 0).
Proof.
  induction d as [|[k' v'] d IH]; simpl; [lia|].
  case_decide; simpl; [subst; lia|]. rewrite IH. lia.
Qed.

Lemma total_count_set d k v :
  total_count (dict_set d k v) = total_count d + (v - dict_get d k 0).
Proof.
  induction d as [|[k' v'] d IH]; simpl; [lia|].
  case_decide; simpl; [lia|]. rewrite IH. lia.
Qed.

Lemma dict_set_keys d k v :
  (dict_set d k v).*1 = if decide (k ∈ d.*1) then d.*1 else d.*1 ++ [k].
Proof.
  induction d as [|[k' v'] d IH]; [done|].
  cbn [dict_set]. rewrite (fmap_cons fst (k', v') d). cbn [fst].
  destruct (decide (k' = k)) as [->|Hne].
  - rewrite fmap_cons. cbn [fst]. rewrite decide_True; [done|]. left.
  - rewrite fmap_cons, IH. cbn [fst].
    destruct (decide (k ∈ d.*1)) as [Hin|Hnin].
    + rewrite decide_True; [done|]. by right.
    + rewrite decide_False; [done|]. intros [?|?]%elem_of_cons; congruence.
Qed.

Lemma dict_set_NoDup d k v : NoDup d.*1 → NoDup (dict_set d k v).*1.
Proof.
  intros Hd. rewrite dict_set_keys. case_decide; [done|].
  apply NoDup_app. split; [done|]. split.
  - intros x Hx [->|?%elem_of_nil]%elem_of_cons; done.
  - apply NoDup_singleton.
Qed.

Lemma dict_set_Forall (P : Z * Z → Prop) d k v :
  Forall P d → P (k, v) → Forall P (dict_set d k v).
Proof.
  intros Hd Hkv. induction Hd as [|[k' v'] d Hx Hd IH]; simpl.
  - by constructor.
  - case_decide; [subst|]; by constructor.
Qed.

Lemma dict_get_nonneg d k : Forall (λ kv, 0 < kv.2) d → 0 ≤ dict_get d k 0.
Proof.
  induction 1 as [|[k' v'] d Hx Hd IH]; simpl; [done|].
  case_decide; simpl in *; lia.
Qed.

Lemma dict_incr_well_formed coins d k :
  k ∈ coins → well_formed coins d → well_formed coins (dict_incr d k).
Proof.
  intros Hk [Hnd Hall]. split; [by apply dict_set_NoDup|].
  apply dict_set_Forall; [done|]. simpl. split; [done|].
  assert (0 ≤ dict_get d k 0); [|lia].
  apply dict_get_nonneg. eapply Forall_impl; [exact Hall|]. simpl. tauto.
Qed.

Lemma well_formed_perm coins d1 d2 :
  d1 ≡ₚ d2 → well_formed coins d1 → well_formed coins d2.
Proof.
  intros Hp [Hnd Hall]. split.
  - by rewrite <- Hp.
  - by rewrite <- Hp.
Qed.

(** Building a dict from items with distinct keys keeps them as they are. *)
Lemma dict_of_items_NoDup items : NoDup items.*1 → dict_of_items items = items.
Proof.
  unfold dict_of_items.
  assert (Hgen : ∀ acc, NoDup (acc ++ items).*1 →
    foldl (λ d kv, dict_set d kv.1 kv.2) acc items = acc ++ items).
  { induction items as [|[k v] items IH]; intros acc Hnd; simpl.
    - by rewrite app_nil_r.
    - rewrite dict_set_fresh.
      + rewrite IH; rewrite <- app_assoc; done.
      + rewrite fmap_app in Hnd. apply NoDup_app in Hnd as (_ & Hdis & _).
        intros Hin. apply (Hdis k Hin). simpl. left. }
  intros Hnd. by rewrite Hgen.
Qed.

(** A mapping and its coins written out pay the same with as many coins. *)
Lemma sum_list_replicate (n : nat) c : sum_list (replicate n c) = Z.of_nat n * c.
Proof. induction n as [|n IH]; simpl; [done|]. rewrite IH. lia. Qed.

Lemma expand_pays coins d :
  combination coins d →
  pays coins (expand d) (weighted_sum d) ∧
  Z.of_nat (length (expand d)) = total_count d.
Proof.
  induction 1 as [|[k v] d [Hk Hv] Hd [[IHl IHs] IHn]]; simpl in *.
  - repeat split. constructor.
  - repeat split.
    + apply Forall_app. split; [|done]. by apply Forall_replicate.
    + rewrite sum_list_app, sum_list_replicate, IHs, Z2Nat.id by done. lia.
    + rewrite length_app, length_replicate. lia.
Qed.

Lemma well_formed_combination coins d : well_formed coins d → combination coins d.
Proof.
  intros [_ Hall]. eapply Forall_impl; [exact Hall|]. simpl. intros kv [? ?].
  split; [done|lia].
Qed.

(** ** Reconstruction *)

Lemma py_get_lookup {A} (l : list A) (i : Z) x :
  0 ≤ i → l !! Z.to_nat i = Some x → py_get l i = Ok x.
Proof.
  intros Hi Hx. pose proof (lookup_lt_Some _ _ _ Hx).
  destruct (py_get_inside l i) as (y & Hy & ->); [lia|]. congruence.
Qed.

(** More fuel does not change a result. *)
Lemma reconstruct_mono fuel : ∀ fuel' coin_used current result r,
  reconstruct fuel coin_used current result = Some r →
  (fuel ≤ fuel')%nat →
  reconstruct fuel' coin_used current result = Some r.
Proof.
  induction fuel as [|fuel IH]; intros fuel' cu cur acc r Hrun Hle.
  - simpl in Hrun. case_decide; [done|].
    destruct fuel'; simpl; by rewrite decide_False.
  - destruct fuel' as [|fuel']; [lia|]. simpl in *.
    case_decide; [|done]. destruct (py_get cu cur); [|done].
    apply IH; [done|lia].
Qed.

(** Walking [coin_used] down from a reachable amount terminates within
    that many steps and adds coins worth exactly that amount. *)
Lemma reconstruct_ok amount cs min_coins coin_used :
  tables_ok amount cs (min_coins, coin_used) →
  ∀ fuel current n result,
    0 ≤ current ≤ amount →
    min_coins !! Z.to_nat current = Some (Fin n) →
    (Z.to_nat current ≤ fuel)%nat →
    well_formed cs result →
    ∃ d, reconstruct fuel coin_used current result = Some (Ok d) ∧
         weighted_sum d = weighted_sum result + current ∧
         total_count d ≤ total_count result + n ∧
         well_formed cs d.
Proof.
  intros [Hlm Hlu Hz Hch Hopt]. simpl in *.
  induction fuel as [|fuel IH]; intros cur n acc Hcur Hn Hfuel Hwf.
  - assert (cur = 0) as -> by lia. simpl.
    change (Z.to_nat 0) with 0%nat in Hn.
    exists acc. rewrite Hz in Hn. injection Hn as <-. split; [done|]. split; [lia|]. split; [lia|done].
  - simpl. case_decide.
    + destruct (Hch cur n) as (c & m & Hc & Hin & Hcr & Hm & Hle); [lia|done|].
      rewrite (py_get_lookup coin_used cur c); [|lia|done].
      destruct (IH (cur - c) m (dict_incr acc c)) as (d & Hrun & Hsum & Hcnt & Hwf');
        [lia|done|lia|by apply dict_incr_well_formed|].
      exists d. split; [done|]. unfold dict_incr in *.
      rewrite weighted_sum_set in Hsum. rewrite total_count_set in Hcnt.
      split; [lia|]. split; [lia|done].
    + assert (cur = 0) as -> by lia.
      change (Z.to_nat 0) with 0%nat in Hn.
      exists acc. rewrite Hz in Hn. injection Hn as <-. split; [done|]. split; [lia|]. split; [lia|done].
Qed.

(** ** What [find_min_coins] returns on valid input *)

Lemma find_min_coins_spec amount coins :
  0 ≤ amount → Forall (λ c, 0 < c) coins →
  ∃ d, min_coins_returns amount coins (Ok d) ∧
       ((¬ feasible coins amount ∧ d = []) ∨
        (feasible coins amount ∧
         well_formed coins d ∧ weighted_sum d = amount ∧
         ∀ d', combination coins d' → weighted_sum d' = amount →
               total_count d ≤ total_count d')).
Proof.
  intros Ha Hcoins.
  destruct (build_tables_ok amount coins Ha Hcoins) as ([mc cu] & Hbuild & Hok).
  pose proof (ok_len_min _ _ _ Hok) as Hlen. simpl in Hlen.
  destruct (py_get_inside mc amount) as (c & Hc & Hget); [lia|].
  unfold min_coins_returns, find_min_coins. rewrite Hbuild, Hget.
  destruct c as [n|]; simpl.
  - destruct (reconstruct_ok _ _ _ _ Hok (Z.to_nat amount) amount n [])
      as (d & Hrun & Hsum & Hcnt & Hwf); [lia|done|lia| |].
    { split; [constructor|constructor]. }
    simpl in Hsum, Hcnt.
    pose proof (merge_sort_Permutation item_le d) as Hperm.
    assert (Hwf' : well_formed coins (sorted_items d)).
    { eapply well_formed_perm; [|exact Hwf]. done. }
    exists (sorted_items d). split.
    + intros fuel Hfuel. rewrite (reconstruct_mono _ fuel _ _ _ _ Hrun Hfuel).
      by rewrite dict_of_items_NoDup by apply Hwf'.
    + right. split.
      { exists d. split; [by apply well_formed_combination|lia]. }
      split; [done|].
      unfold sorted_items. rewrite (weighted_sum_perm _ _ Hperm).
      split; [lia|]. intros d' Hd' Hs'.
      rewrite (total_count_perm _ _ Hperm).
      destruct (expand_pays _ _ Hd') as [Hpays Hlen']. rewrite Hs' in Hpays.
      destruct (ok_opt _ _ _ Hok amount _ ltac:(lia) Hpays) as (n' & Hn' & Hle).
      simpl in Hn'. rewrite Hc in Hn'. injection Hn' as <-. lia.
  - exists []. split; [done|]. left. split; [|done].
    intros (d' & Hd' & Hs').
    destruct (expand_pays _ _ Hd') as [Hpays _]. rewrite Hs' in Hpays.
    destruct (ok_opt _ _ _ Hok amount _ ltac:(lia) Hpays) as (n' & Hn' & _).
    simpl in Hn'. congruence.
Qed.

(** ** What [find_coins_greedy] returns on valid input *)

Lemma sorted_reverse_elem coins c : c ∈ sorted_reverse coins ↔ c ∈ coins.
Proof. unfold sorted_reverse. by rewrite merge_sort_Permutation. Qed.

Lemma sorted_reverse_Forall (P : Z → Prop) coins :
  Forall P coins → Forall P (sorted_reverse coins).
Proof. unfold sorted_reverse. by rewrite merge_sort_Permutation. Qed.

(** A denomination that still fits is not yet a key: every key recorded
    so far exceeds the running amount. *)
Lemma key_fresh (d : dict) amount coin :
  Forall (λ kv, amount < kv.1) d → coin ≤ amount → coin ∉ d.*1.
Proof.
  intros Hd Hle [[k v] [-> Hin]]%list_elem_of_fmap.
  rewrite Forall_forall in Hd. specialize (Hd _ Hin). simpl in *. lia.
Qed.

(** The loop keeps [weighted_sum result + amount] constant; [r] is the
    amount left over when it ends. *)
Lemma greedy_loop_spec cs coins : ∀ amount result,
  Forall (λ c, 0 < c ∧ c ∈ cs) coins →
  0 ≤ amount →
  Forall (λ kv, amount < kv.1) result →
  well_formed cs result →
  ∃ d r, greedy_loop coins amount result = Ok d ∧
         0 ≤ r ≤ amount ∧
         weighted_sum d + r = weighted_sum result + amount ∧
         well_formed cs d ∧
         (1 ∈ coins → r = 0).
Proof.
  induction coins as [|coin rest IH]; intros amount result Hcoins Ha Hkeys Hwf.
  - exists result, amount. simpl. split; [done|]. split; [lia|]. split; [done|].
    split; [done|]. by intros ?%elem_of_nil.
  - apply Forall_cons in Hcoins as [[Hpos Hin] Hrest]. simpl.
    destruct (decide (amount = 0)) as [->|Hnz].
    { exists result, 0. split; [done|]. split; [lia|]. split; [done|]. by split. }
    rewrite decide_False by lia.
    pose proof (Z.div_mod amount coin ltac:(lia)) as Hdm.
    pose proof (Z.mod_pos_bound amount coin Hpos) as Hmod.
    destruct (decide (amount `div` coin > 0)) as [Hcount|Hcount].
    + assert (coin ≤ amount) as Hfit by nia.
      destruct (IH (amount `mod` coin) (dict_set result coin (amount `div` coin)))
        as (d & r & Hrun & Hr & Hsum & Hwf' & Hone); [done|lia| | |].
      * apply dict_set_Forall; [|simpl; lia].
        eapply Forall_impl; [exact Hkeys|]. simpl. intros. lia.
      * destruct Hwf as [Hnd Hall]. split; [by apply dict_set_NoDup|].
        apply dict_set_Forall; [done|]. simpl. split; [done|lia].
      * exists d, r. split; [done|]. split; [lia|]. split; [|split; [done|]].
        -- rewrite dict_set_fresh, weighted_sum_app in Hsum
             by (by eapply key_fresh). simpl in Hsum. lia.
        -- intros [Heq|Hin1]%elem_of_cons; [|by apply Hone].
           subst coin. lia.
    + assert (amount < coin) as Hbig by nia.
      destruct (IH amount result) as (d & r & Hrun & Hr & Hsum & Hwf' & Hone);
        [done..|].
      exists d, r. split; [done|]. split; [lia|]. split; [done|]. split; [done|].
      intros [Heq|Hin1]%elem_of_cons; [|by apply Hone]. subst coin. lia.
Qed.

Lemma find_coins_greedy_spec amount coins :
  0 ≤ amount → Forall (λ c, 0 < c) coins →
  ∃ d r, find_coins_greedy amount coins = Ok d ∧
         0 ≤ r ≤ amount ∧
         weighted_sum d + r = amount ∧
         well_formed coins d ∧
         (1 ∈ coins → r = 0).
Proof.
  intros Ha Hcoins. unfold find_coins_greedy.
  destruct (greedy_loop_spec coins (sorted_reverse coins) amount [])
    as (d & r & Hrun & Hr & Hsum & Hwf & Hone); [|done|constructor| |].
  - apply Forall_forall. intros c Hc.
    apply (proj1 (sorted_reverse_elem coins c)) in Hc.
    rewrite Forall_forall in Hcoins. auto.
  - split; constructor.
  - exists d, r. simpl in Hsum. split; [done|]. split; [done|]. split; [lia|].
    split; [done|]. intros H1. apply Hone. by apply sorted_reverse_elem.
Qed.

(** ** Inputs outside the precondition *)

(** [relax] only ever raises [IndexError], and keeps both lengths. *)
Lemma relax_exn coin st i e : relax coin st i = Raise e → e = IndexError.
Proof.
  destruct st as [mc cu]. unfold relax.
  destruct (py_get mc (i - coin)) as [a|e1] eqn:Ha; simpl;
    [|intros [= <-]; by eapply py_get_exn].
  destruct (py_get mc i) as [b|e2] eqn:Hb; simpl;
    [|intros [= <-]; by eapply py_get_exn].
  destruct (cost_lt (cost_succ a) b); [|done].
  destruct (py_set mc i (cost_succ a)) as [mc'|e3] eqn:Hm; simpl;
    [|intros [= <-]; by eapply py_set_exn].
  destruct (py_set cu i coin) as [cu'|e4] eqn:Hu; simpl;
    [done|intros [= <-]; by eapply py_set_exn].
Qed.

Lemma relax_length coin st i st' :
  relax coin st i = Ok st' →
  length st'.1 = length st.1 ∧ length st'.2 = length st.2.
Proof.
  destruct st as [mc cu]. unfold relax.
  destruct (py_get mc (i - coin)) as [a|e1]; simpl; [|done].
  destruct (py_get mc i) as [b|e2]; simpl; [|done].
  destruct (cost_lt (cost_succ a) b); [|by intros [= <-]].
  destruct (py_set mc i (cost_succ a)) as [mc'|e3] eqn:Hm; simpl; [|done].
  destruct (py_set cu i coin) as [cu'|e4] eqn:Hu; simpl; [|done].
  intros [= <-]. simpl. split; by eapply py_set_length.
Qed.

(** With indices inside the bounds [relax] does not raise. *)
Lemma relax_inside coin st i :
  0 ≤ i - coin < Z.of_nat (length st.1) → 0 ≤ i < Z.of_nat (length st.1) →
  length st.2 = length st.1 →
  ∃ st', relax coin st i = Ok st'.
Proof.
  destruct st as [mc cu]. simpl. intros Hic Hi Hlen. unfold relax.
  destruct (py_get_inside mc (i - coin)) as (a & _ & ->); [done|].
  destruct (py_get_inside mc i) as (b & _ & ->); [done|]. simpl.
  destruct (cost_lt (cost_succ a) b); [|by eauto].
  rewrite !py_set_inside by lia. simpl. by eauto.
Qed.

(** An index whose source [i - coin] lies beyond the table stops the loop. *)
Lemma for_each_relax_raises coin idxs : ∀ st i,
  i ∈ idxs → Z.of_nat (length st.1) ≤ i - coin →
  for_each (relax coin) idxs st = Raise IndexError.
Proof.
  induction idxs as [|x idxs IH]; intros st i Hin Hout.
  - by apply elem_of_nil in Hin.
  - simpl. destruct (relax coin st x) as [st'|e] eqn:Hstep; simpl.
    + apply elem_of_cons in Hin as [<-|Hin].
      * destruct st as [mc cu]. unfold relax in Hstep. simpl in Hout.
        by rewrite py_get_raises in Hstep.
      * apply (IH st' i Hin). apply relax_length in Hstep as [-> _]. done.
    + by rewrite (relax_exn _ _ _ _ Hstep).
Qed.

Lemma for_each_relax_inside coin idxs : ∀ st,
  Forall (λ i, 0 ≤ i - coin < Z.of_nat (length st.1) ∧
               0 ≤ i < Z.of_nat (length st.1)) idxs →
  length st.2 = length st.1 →
  ∃ st', for_each (relax coin) idxs st = Ok st' ∧
         length st'.1 = length st.1 ∧ length st'.2 = length st.2.
Proof.
  induction idxs as [|x idxs IH]; intros st Hall Hlen.
  - exists st. by simpl.
  - apply Forall_cons in Hall as [[Hxc Hx] Hall]. simpl.
    destruct (relax_inside coin st x Hxc Hx Hlen) as (st1 & Hstep). rewrite Hstep.
    simpl. apply relax_length in Hstep as [Hl1 Hl2].
    destruct (IH st1) as (st' & Hrun & Hl1' & Hl2').
    + by rewrite Hl1.
    + congruence.
    + exists st'. split; [done|]. split; congruence.
Qed.

(** A negative denomination makes the inner loop read [min_coins[amount + 1]]. *)
Lemma relax_coin_negative amount st coin :
  0 ≤ amount → coin < 0 → length st.1 = Z.to_nat (amount + 1) →
  relax_coin amount st coin = Raise IndexError.
Proof.
  intros Ha Hneg Hlen. unfold relax_coin, py_range.
  apply (for_each_relax_raises coin _ st (amount + coin + 1)).
  - apply elem_of_seqZ. lia.
  - lia.
Qed.

(** A denomination [>= 0] stays inside the tables. *)
Lemma relax_coin_nonneg amount st coin :
  0 ≤ coin → length st.1 = Z.to_nat (amount + 1) → length st.2 = length st.1 →
  ∃ st', relax_coin amount st coin = Ok st' ∧
         length st'.1 = length st.1 ∧ length st'.2 = length st.2.
Proof.
  intros Hcoin Hlen Hlen2. unfold relax_coin, py_range.
  apply for_each_relax_inside; [|done].
  apply Forall_forall. intros i Hi%elem_of_seqZ. lia.
Qed.

Lemma for_each_coins_negative amount coins : ∀ st,
  0 ≤ amount → Exists (λ c, c < 0) coins →
  length st.1 = Z.to_nat (amount + 1) → length st.2 = length st.1 →
  for_each (relax_coin amount) coins st = Raise IndexError.
Proof.
  induction coins as [|coin coins IH]; intros st Ha Hex Hlen Hlen2.
  - by apply Exists_nil in Hex.
  - simpl. destruct (decide (coin < 0)) as [Hneg|Hpos].
    + by rewrite relax_coin_negative.
    + destruct (relax_coin_nonneg amount st coin) as (st' & -> & Hl1 & Hl2);
        [lia|done|done|]. simpl.
      apply Exists_cons in Hex as [?|Hex]; [done|].
      apply IH; [done|done|congruence|congruence].
Qed.

Lemma find_min_coins_negative_amount fuel amount coins :
  amount < 0 → find_min_coins fuel amount coins = Some (Raise IndexError).
Proof.
  intros Ha. unfold find_min_coins, build_tables, py_repeat.
  by replace (Z.to_nat (amount + 1)) with 0%nat by lia.
Qed.

Lemma find_min_coins_negative_coin fuel amount coins :
  0 ≤ amount → Exists (λ c, c < 0) coins →
  find_min_coins fuel amount coins = Some (Raise IndexError).
Proof.
  intros Ha Hex. unfold find_min_coins, build_tables.
  rewrite py_set_inside by (unfold py_repeat; rewrite length_replicate; lia).
  simpl. rewrite for_each_coins_negative; [done|done|done|..]; simpl;
    unfold py_repeat; rewrite ?length_insert, !length_replicate; done.
Qed.

(** [find_coins_greedy] never finds a positive denomination that fits a
    negative amount. *)
Lemma greedy_loop_negative coins : ∀ amount result,
  amount < 0 → Forall (λ c, 0 < c) coins →
  greedy_loop coins amount result = Ok result.
Proof.
  induction coins as [|coin coins IH]; intros amount result Ha Hcoins; [done|].
  apply Forall_cons in Hcoins as [Hpos Hcoins]. simpl.
  rewrite !decide_False; [by apply IH|..]; try lia.
  pose proof (Z.div_lt_upper_bound amount coin 0 Hpos). lia.
Qed.

(** ** The amount zero *)

Lemma relax_coin_beyond amount st coin :
  amount < coin → relax_coin amount st coin = Ok st.
Proof.
  intros Hbig. unfold relax_coin, py_range, seqZ.
  by replace (Z.to_nat (amount + 1 - coin)) with 0%nat by lia.
Qed.

Lemma for_each_coins_zero coins : ∀ st,
  Forall (λ c, 0 < c) coins → for_each (relax_coin 0) coins st = Ok st.
Proof.
  induction coins as [|coin coins IH]; intros st Hcoins; [done|].
  apply Forall_cons in Hcoins as [Hpos Hcoins]. simpl.
  rewrite relax_coin_beyond by done. simpl. by apply IH.
Qed.

Lemma find_min_coins_zero fuel coins :
  Forall (λ c, 0 < c) coins → find_min_coins fuel 0 coins = Some (Ok []).
Proof.
  intros Hcoins. unfold find_min_coins, build_tables. simpl.
  rewrite for_each_coins_zero by done. simpl. by destruct fuel.
Qed.

Lemma greedy_loop_zero coins result : greedy_loop coins 0 result = Ok result.
Proof. by destruct coins. Qed.

(** ** Running [find_min_coins] with more fuel *)

Lemma find_min_coins_mono fuel fuel' amount coins r :
  find_min_coins fuel amount coins = Some r → (fuel ≤ fuel')%nat →
  find_min_coins fuel' amount coins = Some r.
Proof.
  unfold find_min_coins. intros Hrun Hle.
  destruct (build_tables amount coins) as [[mc cu]|e]; [|done].
  destruct (py_get mc amount) as [c|e]; [|done].
  destruct (is_inf c); [done|].
  destruct (reconstruct fuel cu amount []) as [r0|] eqn:Hrec; [|done].
  by rewrite (reconstruct_mono _ fuel' _ _ _ _ Hrec Hle).
Qed.

Lemma min_coins_returns_run amount coins r :
  find_min_coins (Z.to_nat amount) amount coins = Some r →
  min_coins_returns amount coins r.
Proof. intros Hrun fuel Hfuel. by eapply find_min_coins_mono. Qed.

Lemma min_coins_returns_inj amount coins r r' :
  min_coins_returns amount coins r → min_coins_returns amount coins r' → r = r'.
Proof.
  intros H1 H2. specialize (H1 _ (Nat.le_refl _)). specialize (H2 _ (Nat.le_refl _)).
  congruence.
Qed.

(** ** Mappings over positive denominations *)

Lemma combination_subseteq coins coins' d :
  (∀ c, c ∈ coins → c ∈ coins') → combination coins d → combination coins' d.
Proof.
  intros Hsub Hd. eapply Forall_impl; [exact Hd|]. simpl. intros kv [? ?]. auto.
Qed.

Lemma feasible_perm coins coins' amount :
  coins ≡ₚ coins' → feasible coins amount → feasible coins' amount.
Proof.
  intros Hp (d & Hd & Hs). exists d. split; [|done].
  eapply combination_subseteq; [|done]. intros c. by rewrite Hp.
Qed.

Lemma feasible_zero coins : feasible coins 0.
Proof. exists []. split; [constructor|done]. Qed.

Lemma feasible_with_one coins amount : 0 ≤ amount → 1 ∈ coins → feasible coins amount.
Proof.
  intros Ha H1. exists [(1, amount)]. split; [|simpl; lia].
  constructor; [|constructor]. by split.
Qed.

Lemma weighted_sum_positive coins d :
  Forall (λ c, 0 < c) coins → well_formed coins d → d ≠ [] → 0 < weighted_sum d.
Proof.
  intros Hcoins [_ Hall] Hne. rewrite Forall_forall in Hcoins.
  assert (Hge : ∀ d, Forall (λ kv, kv.1 ∈ coins ∧ 0 < kv.2) d → 0 ≤ weighted_sum d).
  { clear d Hall Hne. induction 1 as [|[k v] d [Hk Hv] Hd IH]; simpl in *; [done|].
    specialize (Hcoins _ Hk). nia. }
  destruct Hall as [|[k v] d [Hk Hv] Hd]; [done|]. simpl in *.
  specialize (Hcoins _ Hk). specialize (Hge _ Hd). nia.
Qed.

(** ** The runs printed by the script *)

Example greedy_113 :
  find_coins_greedy 113 [50; 25; 10; 5; 2; 1] = Ok [(50, 2); (10, 1); (2, 1); (1, 1)].
Proof. by vm_compute. Qed.

Example greedy_113_unsorted :
  find_coins_greedy 113 [1; 2; 5; 10; 25; 50] = Ok [(50, 2); (10, 1); (2, 1); (1, 1)].
Proof. by vm_compute. Qed.

Example min_coins_113 :
  min_coins_returns 113 [50; 25; 10; 5; 2; 1] (Ok [(1, 1); (2, 1); (10, 1); (50, 2)]).
Proof. apply min_coins_returns_run. by vm_compute. Qed.

(** Zero denominations: skipped by [find_min_coins], a division by zero in
    [find_coins_greedy] once the loop reaches them with an amount left. *)
Example min_coins_zero_coin : min_coins_returns 2 [0; 1] (Ok [(1, 2)]).
Proof. apply min_coins_returns_run. by vm_compute. Qed.

Example greedy_zero_coin : find_coins_greedy 2 [0; -1] = Raise ZeroDivisionError.
Proof. by vm_compute. Qed.

(** * Properties of the specification *)

(** C1. For an amount [>= 0] and positive denominations, [find_min_coins]
    returns a mapping; when the amount can be formed, the mapping is a
    well-formed decomposition of the amount whose coin count is minimal
    among all mappings over the denominations that add up to the amount;
    when it cannot be formed, the mapping is empty.  (The list of
    denominations need not be non-empty.) *)
Theorem find_min_coins_optimal amount coins :
  0 ≤ amount → Forall (λ c, 0 < c) coins →
  ∃ d, min_coins_returns amount coins (Ok d) ∧
       (feasible coins amount →
          well_formed coins d ∧ weighted_sum d = amount ∧
          ∀ d', combination coins d' → weighted_sum d' = amount →
                total_count d ≤ total_count d') ∧
       (¬ feasible coins amount → d = []).
Proof.
  intros Ha Hcoins.
  destruct (find_min_coins_spec amount coins Ha Hcoins)
    as (d & Hret & [[Hno ->]|(Hyes & Hwf & Hsum & Hmin)]).
  - exists []. split; [done|]. split; [|done]. intros Hf. by destruct Hno.
  - exists d. split; [done|]. split; [done|]. intros Hno. by destruct Hno.
Qed.

Lemma find_min_coins_optimal_witness :
  0 ≤ 12 ∧ Forall (λ c, 0 < c) [9; 6; 1] ∧
  ∃ d, min_coins_returns 12 [9; 6; 1] (Ok d) ∧
       (feasible [9; 6; 1] 12 →
          well_formed [9; 6; 1] d ∧ weighted_sum d = 12 ∧
          ∀ d', combination [9; 6; 1] d' → weighted_sum d' = 12 →
                total_count d ≤ total_count d') ∧
       (¬ feasible [9; 6; 1] 12 → d = []).
Proof.
  split; [lia|]. split; [compute_done|].
  apply (find_min_coins_optimal 12 [9; 6; 1]); [lia|compute_done].
Defined.

(** C2. For an amount [>= 0] and positive denominations, whenever the
    mapping returned by [find_min_coins] is non-empty, or the amount is 0,
    its weighted sum equals the amount. *)
Theorem find_min_coins_round_trip amount coins :
  0 ≤ amount → Forall (λ c, 0 < c) coins →
  ∃ d, min_coins_returns amount coins (Ok d) ∧
       (d ≠ [] ∨ amount = 0 → weighted_sum d = amount).
Proof.
  intros Ha Hcoins.
  destruct (find_min_coins_spec amount coins Ha Hcoins)
    as (d & Hret & [[Hno ->]|(Hyes & Hwf & Hsum & Hmin)]).
  - exists []. split; [done|]. intros [?| ->]; [done|].
    destruct Hno. apply feasible_zero.
  - exists d. by split.
Qed.

Lemma find_min_coins_round_trip_witness :
  0 ≤ 113 ∧ Forall (λ c, 0 < c) [50; 25; 10; 5; 2; 1] ∧
  ∃ d, min_coins_returns 113 [50; 25; 10; 5; 2; 1] (Ok d) ∧
       (d ≠ [] ∨ 113 = 0 → weighted_sum d = 113).
Proof.
  split; [lia|]. split; [compute_done|].
  apply (find_min_coins_round_trip 113 [50; 25; 10; 5; 2; 1]); [lia|compute_done].
Defined.

(** C3, as the spec states it, fails: for the amount 6 and the
    denominations [4, 3] the greedy mapping is {4: 1}, one coin that pays
    only 4, and [find_min_coins] returns {3: 2}, two coins. *)
Lemma optimal_le_greedy_counterexample :
  ¬ (∀ amount coins dm dg,
       0 ≤ amount → Forall (λ c, 0 < c) coins →
       min_coins_returns amount coins (Ok dm) →
       find_coins_greedy amount coins = Ok dg →
       total_count dm ≤ total_count dg).
Proof.
  intros H. specialize (H 6 [4; 3] [(3, 2)] [(4, 1)]).
  assert (total_count [(3, 2)] ≤ total_count [(4, 1)]) as Hle; [|simpl in Hle; lia].
  apply H; [lia|compute_done| |by vm_compute].
  apply min_coins_returns_run. by vm_compute.
Qed.

(** C3, amended. For an amount [>= 0] and positive denominations, whenever
    the mapping returned by [find_coins_greedy] adds up to the amount, the
    coin count of the mapping returned by [find_min_coins] is at most the
    coin count of the greedy one. *)
Theorem optimal_le_complete_greedy amount coins :
  0 ≤ amount → Forall (λ c, 0 < c) coins →
  ∃ dm dg, min_coins_returns amount coins (Ok dm) ∧
           find_coins_greedy amount coins = Ok dg ∧
           (weighted_sum dg = amount → total_count dm ≤ total_count dg).
Proof.
  intros Ha Hcoins.
  destruct (find_coins_greedy_spec amount coins Ha Hcoins)
    as (dg & r & Hg & Hr & Hsum & Hwf & _).
  apply well_formed_combination in Hwf.
  destruct (find_min_coins_spec amount coins Ha Hcoins)
    as (dm & Hret & [[Hno ->]|(Hyes & _ & _ & Hmin)]).
  - exists [], dg. split; [done|]. split; [done|]. intros Hs.
    destruct Hno. by exists dg.
  - exists dm, dg. split; [done|]. split; [done|]. intros Hs. by apply Hmin.
Qed.

Lemma optimal_le_complete_greedy_witness :
  0 ≤ 12 ∧ Forall (λ c, 0 < c) [9; 6; 1] ∧
  ∃ dm dg, min_coins_returns 12 [9; 6; 1] (Ok dm) ∧
           find_coins_greedy 12 [9; 6; 1] = Ok dg ∧
           (weighted_sum dg = 12 → total_count dm ≤ total_count dg).
Proof.
  split; [lia|]. split; [compute_done|].
  apply (optimal_le_complete_greedy 12 [9; 6; 1]); [lia|compute_done].
Defined.

(** The amount 1 cannot be formed from 9 and 6. *)
Lemma infeasible_1_of_9_6 : ¬ feasible [9; 6] 1.
Proof.
  destruct (find_min_coins_spec 1 [9; 6]) as (d & Hret & [[Hno _]|(_ & _ & Hsum & _)]);
    [lia|compute_done|done|].
  assert (Ok d = Ok []) as [= ->]; [|done].
  eapply min_coins_returns_inj; [exact Hret|].
  apply min_coins_returns_run. by vm_compute.
Qed.

(** C4. For an amount [> 0] that is no non-negative integer combination of
    the positive denominations, [find_min_coins] returns the empty mapping
    as an ordinary result, without raising; in particular
    [find_min_coins(1, [9, 6]) == {}]. *)
Theorem find_min_coins_infeasible amount coins :
  0 < amount → Forall (λ c, 0 < c) coins → ¬ feasible coins amount →
  min_coins_returns amount coins (Ok []) ∧ min_coins_returns 1 [9; 6] (Ok []).
Proof.
  intros Ha Hcoins Hno. split.
  - destruct (find_min_coins_spec amount coins ltac:(lia) Hcoins)
      as (d & Hret & [[_ ->]|(Hyes & _)]); [done|]. by destruct Hno.
  - apply min_coins_returns_run. by vm_compute.
Qed.

Lemma find_min_coins_infeasible_witness :
  0 < 1 ∧ Forall (λ c, 0 < c) [9; 6] ∧ ¬ feasible [9; 6] 1 ∧
  min_coins_returns 1 [9; 6] (Ok []).
Proof.
  split; [lia|]. split; [compute_done|]. split; [exact infeasible_1_of_9_6|].
  apply (find_min_coins_infeasible 1 [9; 6]);
    [lia|compute_done|exact infeasible_1_of_9_6].
Defined.

(** C5, as the spec states it, fails: the amount 4 has two decompositions
    into two coins over 1, 2, 3, and which one is returned depends on the
    order of the denominations: {2: 2} for [1, 2, 3], {1: 1, 3: 1} for
    [1, 3, 2]. *)
Lemma order_independent_counterexample :
  ¬ (∀ amount coins coins' r r',
       0 ≤ amount → Forall (λ c, 0 < c) coins → coins ≡ₚ coins' →
       min_coins_returns amount coins r →
       min_coins_returns amount coins' r' →
       r = r').
Proof.
  intros H.
  specialize (H 4 [1; 2; 3] [1; 3; 2] (Ok [(2, 2)]) (Ok [(1, 1); (3, 1)])).
  assert (Ok [(2, 2)] = Ok [(1, 1); (3, 1)] :> outcome dict) as Heq; [|done].
  apply H; [lia|compute_done| | |].
  - apply perm_skip, perm_swap.
  - apply min_coins_returns_run. by vm_compute.
  - apply min_coins_returns_run. by vm_compute.
Qed.

(** C5, amended. For an amount [>= 0] and positive denominations, the coin
    count and the weighted sum of the mapping returned by [find_min_coins],
    and whether it is empty, are the same for every permutation of the
    denominations. *)
Theorem count_order_independent amount coins coins' :
  0 ≤ amount → Forall (λ c, 0 < c) coins → coins ≡ₚ coins' →
  ∃ d d', min_coins_returns amount coins (Ok d) ∧
          min_coins_returns amount coins' (Ok d') ∧
          total_count d = total_count d' ∧
          weighted_sum d = weighted_sum d' ∧
          (d = [] ↔ d' = []).
Proof.
  intros Ha Hcoins Hperm.
  assert (Hcoins' : Forall (λ c, 0 < c) coins') by by rewrite <- Hperm.
  destruct (find_min_coins_spec amount coins Ha Hcoins)
    as (d & Hret & [[Hno ->]|(Hyes & Hwf & Hsum & Hmin)]);
  destruct (find_min_coins_spec amount coins' Ha Hcoins')
    as (d' & Hret' & [[Hno' ->]|(Hyes' & Hwf' & Hsum' & Hmin')]).
  - by exists [], [].
  - destruct Hno. by apply (feasible_perm coins' coins).
  - destruct Hno'. by apply (feasible_perm coins coins').
  - exists d, d'. split; [done|]. split; [done|]. split; [|split; [lia|]].
    + apply well_formed_combination in Hwf, Hwf'.
      assert (total_count d ≤ total_count d').
      { apply Hmin; [|done]. eapply combination_subseteq; [|done].
        intros c. by rewrite Hperm. }
      assert (total_count d' ≤ total_count d); [|lia].
      apply Hmin'; [|done]. eapply combination_subseteq; [|done].
      intros c. by rewrite Hperm.
    + split; intros ->.
      * destruct (decide (d' = [])) as [|Hne]; [done|].
        pose proof (weighted_sum_positive _ _ Hcoins' Hwf' Hne).
        simpl in Hsum. lia.
      * destruct (decide (d = [])) as [|Hne]; [done|].
        pose proof (weighted_sum_positive _ _ Hcoins Hwf Hne).
        simpl in Hsum'. lia.
Qed.

Lemma count_order_independent_witness :
  0 ≤ 4 ∧ Forall (λ c, 0 < c) [1; 2; 3] ∧ [1; 2; 3] ≡ₚ [1; 3; 2] ∧
  ∃ d d', min_coins_returns 4 [1; 2; 3] (Ok d) ∧
          min_coins_returns 4 [1; 3; 2] (Ok d') ∧
          total_count d = total_count d' ∧
          weighted_sum d = weighted_sum d' ∧
          (d = [] ↔ d' = []).
Proof.
  split; [lia|]. split; [compute_done|]. split; [apply perm_skip, perm_swap|].
  apply (count_order_independent 4 [1; 2; 3] [1; 3; 2]);
    [lia|compute_done|apply perm_skip, perm_swap].
Defined.

(** C6, as the spec states it, fails: neither function validates its
    input.  For the amount -5 and the denomination 3, [find_coins_greedy]
    returns the empty mapping. *)
Lemma invalid_input_counterexample :
  ¬ (∀ amount coins,
       amount < 0 ∨ Exists (λ c, c ≤ 0) coins →
       (∃ e, find_coins_greedy amount coins = Raise e) ∧
       (∃ e, min_coins_returns amount coins (Raise e))).
Proof.
  intros H. destruct (H (-5) [3]) as [[e He] _]; [left; lia|].
  vm_compute in He. done.
Qed.

(** C6, amended. [find_min_coins] raises [IndexError] on every negative
    amount, and on every amount [>= 0] with a negative denomination;
    [find_coins_greedy] on a negative amount and positive denominations
    returns the empty mapping. *)
Theorem invalid_input_behaviour amount coins :
  (amount < 0 ∨ Exists (λ c, c < 0) coins →
   ∀ fuel, find_min_coins fuel amount coins = Some (Raise IndexError)) ∧
  (amount < 0 → Forall (λ c, 0 < c) coins →
   find_coins_greedy amount coins = Ok []).
Proof.
  split.
  - intros Hbad fuel. destruct (decide (amount < 0)) as [Hneg|Hpos].
    + by apply find_min_coins_negative_amount.
    + destruct Hbad as [?|Hex]; [done|].
      apply find_min_coins_negative_coin; [lia|done].
  - intros Hneg Hcoins. unfold find_coins_greedy.
    apply greedy_loop_negative; [done|]. by apply sorted_reverse_Forall.
Qed.

Lemma invalid_input_behaviour_witness :
  (2 < 0 ∨ Exists (λ c, c < 0) [3; -1]) ∧
  (∀ fuel, find_min_coins fuel 2 [3; -1] = Some (Raise IndexError)) ∧
  -5 < 0 ∧ Forall (λ c, 0 < c) [3] ∧
  find_coins_greedy (-5) [3] = Ok [].
Proof.
  split; [right; compute_done|].
  split; [apply (invalid_input_behaviour 2 [3; -1]); right; compute_done|].
  split; [lia|]. split; [compute_done|].
  apply (invalid_input_behaviour (-5) [3]); [lia|compute_done].
Defined.

(** C7. For an amount [>= 0] and positive denominations that include 1,
    [find_coins_greedy] and [find_min_coins] both return mappings whose
    weighted sum equals the amount. *)
Theorem both_exact_with_one amount coins :
  0 ≤ amount → Forall (λ c, 0 < c) coins → 1 ∈ coins →
  ∃ dg dm, find_coins_greedy amount coins = Ok dg ∧
           min_coins_returns amount coins (Ok dm) ∧
           weighted_sum dg = amount ∧ weighted_sum dm = amount.
Proof.
  intros Ha Hcoins H1.
  destruct (find_coins_greedy_spec amount coins Ha Hcoins)
    as (dg & r & Hg & Hr & Hsum & _ & Hone).
  specialize (Hone H1).
  destruct (find_min_coins_spec amount coins Ha Hcoins)
    as (dm & Hret & [[Hno _]|(_ & _ & Hsum' & _)]).
  - destruct Hno. by apply feasible_with_one.
  - exists dg, dm. split; [done|]. split; [done|]. split; [lia|done].
Qed.

Lemma both_exact_with_one_witness :
  0 ≤ 113 ∧ Forall (λ c, 0 < c) [50; 25; 10; 5; 2; 1] ∧ 1 ∈ [50; 25; 10; 5; 2; 1] ∧
  ∃ dg dm, find_coins_greedy 113 [50; 25; 10; 5; 2; 1] = Ok dg ∧
           min_coins_returns 113 [50; 25; 10; 5; 2; 1] (Ok dm) ∧
           weighted_sum dg = 113 ∧ weighted_sum dm = 113.
Proof.
  split; [lia|]. split; [compute_done|]. split; [compute_done|].
  apply (both_exact_with_one 113 [50; 25; 10; 5; 2; 1]);
    [lia|compute_done|compute_done].
Defined.

(** C8. On the amount 12 and the denominations [9, 6, 1],
    [find_coins_greedy] returns {9: 1, 1: 3}, 4 coins, and
    [find_min_coins] returns {6: 2}, 2 coins. *)
Theorem twelve_of_9_6_1 :
  find_coins_greedy 12 [9; 6; 1] = Ok [(9, 1); (1, 3)] ∧
  total_count [(9, 1); (1, 3)] = 4 ∧
  min_coins_returns 12 [9; 6; 1] (Ok [(6, 2)]) ∧
  total_count [(6, 2)] = 2.
Proof.
  split; [by vm_compute|]. split; [done|]. split; [|done].
  apply min_coins_returns_run. by vm_compute.
Qed.

(** C9. For positive denominations, [find_coins_greedy] and
    [find_min_coins] both return the empty mapping on the amount 0. *)
Theorem zero_amount_empty coins :
  Forall (λ c, 0 < c) coins →
  find_coins_greedy 0 coins = Ok [] ∧
  ∀ fuel, find_min_coins fuel 0 coins = Some (Ok []).
Proof.
  intros Hcoins. split.
  - apply greedy_loop_zero.
  - intros fuel. by apply find_min_coins_zero.
Qed.

Lemma zero_amount_empty_witness :
  Forall (λ c, 0 < c) [9; 6; 1] ∧
  find_coins_greedy 0 [9; 6; 1] = Ok [] ∧
  ∀ fuel, find_min_coins fuel 0 [9; 6; 1] = Some (Ok []).
Proof.
  split; [compute_done|]. apply (zero_amount_empty [9; 6; 1]). compute_done.
Defined.

(** C10. For an amount [>= 0] and positive denominations, the weighted sum
    of the mapping returned by [find_coins_greedy] is at most the amount. *)
Theorem greedy_never_exceeds amount coins :
  0 ≤ amount → Forall (λ c, 0 < c) coins →
  ∃ d, find_coins_greedy amount coins = Ok d ∧ weighted_sum d ≤ amount.
Proof.
  intros Ha Hcoins.
  destruct (find_coins_greedy_spec amount coins Ha Hcoins)
    as (d & r & Hg & Hr & Hsum & _).
  exists d. split; [done|lia].
Qed.

Lemma greedy_never_exceeds_witness :
  0 ≤ 6 ∧ Forall (λ c, 0 < c) [4; 3] ∧
  ∃ d, find_coins_greedy 6 [4; 3] = Ok d ∧ weighted_sum d ≤ 6.
Proof.
  split; [lia|]. split; [compute_done|].
  apply (greedy_never_exceeds 6 [4; 3]); [lia|compute_done].
Defined.

(** * Further properties of [find_coins_greedy] *)

(** The loop again, now following the order of the keys, what is left of
    the amount against the denominations passed, and a second run on the
    part of the amount that was paid. *)
Lemma greedy_loop_shape coins : ∀ amount result,
  Forall (λ c, 0 < c) coins →
  0 ≤ amount →
  Forall (λ kv, amount < kv.1) result →
  StronglySorted (λ a b : Z * Z, b.1 < a.1) result →
  ∃ d r, greedy_loop coins amount result = Ok d ∧
         0 ≤ r ≤ amount ∧
         weighted_sum d + r = weighted_sum result + amount ∧
         Forall (λ c, r < c) coins ∧
         StronglySorted (λ a b : Z * Z, b.1 < a.1) d ∧
         greedy_loop coins (amount - r) result = Ok d.
Proof.
  induction coins as [|coin rest IH]; intros amount result Hcoins Ha Hkeys Hdesc.
  - exists result, amount. simpl. split; [done|]. split; [lia|].
    split; [done|]. by split.
  - apply Forall_cons in Hcoins as [Hpos Hrest]. simpl.
    destruct (decide (amount = 0)) as [->|Hnz].
    { exists result, 0. split; [done|]. split; [lia|]. split; [done|].
      split; [by constructor|]. split; [done|]. by rewrite decide_True by lia. }
    rewrite decide_False by lia.
    pose proof (Z.div_mod amount coin ltac:(lia)) as Hdm.
    pose proof (Z.mod_pos_bound amount coin Hpos) as Hmod.
    destruct (decide (amount `div` coin > 0)) as [Hcount|Hcount].
    + assert (coin ≤ amount) as Hfit by nia.
      rewrite dict_set_fresh by (by eapply key_fresh).
      destruct (IH (amount `mod` coin) (result ++ [(coin, amount `div` coin)]))
        as (d & r & Hrun & Hr & Hsum & Hsmall & Hdesc' & Hagain); [done|lia| | |].
      * apply Forall_app. split.
        -- eapply Forall_impl; [exact Hkeys|]. simpl. intros. lia.
        -- constructor; [simpl; lia|constructor].
      * apply StronglySorted_app_2; [|done|repeat constructor].
        intros kv1 kv2 Hin1 ->%list_elem_of_singleton. simpl.
        rewrite Forall_forall in Hkeys. specialize (Hkeys _ Hin1). lia.
      * exists d, r. split; [done|]. split; [lia|].
        rewrite weighted_sum_app in Hsum. simpl in Hsum.
        split; [lia|]. split; [constructor; [lia|done]|]. split; [done|].
        assert ((amount - r) `div` coin = amount `div` coin) as Hq.
        { symmetry. apply (Z.div_unique_pos _ _ _ (amount `mod` coin - r)); lia. }
        assert ((amount - r) `mod` coin = amount `mod` coin - r) as Hm.
        { symmetry. apply (Z.mod_unique_pos _ _ (amount `div` coin)); lia. }
        rewrite !decide_False by lia. rewrite Hq, Hm, decide_True by done.
        by rewrite dict_set_fresh by (by eapply key_fresh).
    + assert (amount < coin) as Hbig by nia.
      destruct (IH amount result)
        as (d & r & Hrun & Hr & Hsum & Hsmall & Hdesc' & Hagain); [done..|].
      exists d, r. split; [done|]. split; [lia|]. split; [done|].
      split; [constructor; [lia|done]|]. split; [done|].
      destruct (decide (amount - r = 0)) as [Hz|Hnz'].
      * rewrite Hz, greedy_loop_zero in Hagain. done.
      * pose proof (Z.div_small (amount - r) coin ltac:(lia)).
        by rewrite !decide_False by lia.
Qed.

Lemma find_coins_greedy_shape amount coins :
  0 ≤ amount → Forall (λ c, 0 < c) coins →
  ∃ d, find_coins_greedy amount coins = Ok d ∧
       Forall (λ c, 0 ≤ amount - weighted_sum d < c) coins ∧
       StronglySorted (λ a b : Z * Z, b.1 < a.1) d ∧
       find_coins_greedy (weighted_sum d) coins = Ok d.
Proof.
  intros Ha Hcoins. unfold find_coins_greedy.
  destruct (greedy_loop_shape (sorted_reverse coins) amount [])
    as (d & r & Hrun & Hr & Hsum & Hsmall & Hdesc & Hagain);
    [by apply sorted_reverse_Forall|done|constructor|constructor|].
  exists d. simpl in Hsum. split; [done|]. split; [|split; [done|]].
  - apply Forall_forall. intros c Hc. apply sorted_reverse_elem in Hc.
    rewrite Forall_forall in Hsmall. specialize (Hsmall _ Hc). lia.
  - by replace (weighted_sum d) with (amount - r) by lia.
Qed.

(** The loop raises nothing but a division by zero. *)
Lemma greedy_loop_raise coins : ∀ amount result e,
  greedy_loop coins amount result = Raise e →
  e = ZeroDivisionError ∧ 0 ∈ coins ∧ amount ≠ 0.
Proof.
  induction coins as [|coin rest IH]; intros amount result e; simpl; [done|].
  destruct (decide (amount = 0)) as [|Hnz]; [done|].
  destruct (decide (coin = 0)) as [->|Hcz].
  - intros [= <-]. split; [done|]. split; [left|done].
  - case_decide; intros Hrun; apply IH in Hrun as (-> & Hin & _);
      (split; [done|]; split; [by right|done]).
Qed.

(** Sorting forgets the order the denominations were given in. *)
Lemma sorted_reverse_perm coins coins' :
  coins ≡ₚ coins' → sorted_reverse coins = sorted_reverse coins'.
Proof.
  intros Hperm. unfold sorted_reverse.
  assert (Transitive (flip Z.le)) by (intros x y z; unfold flip; lia).
  assert (AntiSymm (=) (flip Z.le)) by (intros x y; unfold flip; lia).
  assert (Total (flip Z.le)) by (intros x y; unfold flip; lia).
  apply (Sorted_unique (flip Z.le)).
  - by apply Sorted_merge_sort.
  - by apply Sorted_merge_sort.
  - by rewrite !merge_sort_Permutation.
Qed.

(** X1. For an amount [>= 0] and positive denominations, what
    [find_coins_greedy] leaves unpaid is non-negative and smaller than
    every denomination: no denomination fits the remainder. *)
Theorem greedy_remainder_below_every_coin amount coins :
  0 ≤ amount → Forall (λ c, 0 < c) coins →
  ∃ d, find_coins_greedy amount coins = Ok d ∧
       Forall (λ c, 0 ≤ amount - weighted_sum d < c) coins.
Proof.
  intros Ha Hcoins.
  destruct (find_coins_greedy_shape amount coins Ha Hcoins) as (d & Hrun & Hrem & _).
  by exists d.
Qed.

Lemma greedy_remainder_below_every_coin_witness :
  0 ≤ 6 ∧ Forall (λ c, 0 < c) [4; 3] ∧
  ∃ d, find_coins_greedy 6 [4; 3] = Ok d ∧
       Forall (λ c, 0 ≤ 6 - weighted_sum d < c) [4; 3].
Proof.
  split; [lia|]. split; [compute_done|].
  apply (greedy_remainder_below_every_coin 6 [4; 3]); [lia|compute_done].
Defined.

(** X2. For an amount [>= 0] and positive denominations, the mapping
    returned by [find_coins_greedy] lists its keys in strictly decreasing
    order; every key is one of the denominations, appears once, and has a
    positive count. *)
Theorem greedy_keys_descending amount coins :
  0 ≤ amount → Forall (λ c, 0 < c) coins →
  ∃ d, find_coins_greedy amount coins = Ok d ∧
       StronglySorted (λ a b : Z * Z, b.1 < a.1) d ∧
       well_formed coins d.
Proof.
  intros Ha Hcoins.
  destruct (find_coins_greedy_shape amount coins Ha Hcoins) as (d & Hrun & _ & Hdesc & _).
  destruct (find_coins_greedy_spec amount coins Ha Hcoins) as (d' & r & Hrun' & _ & _ & Hwf & _).
  exists d. split; [done|]. split; [done|]. congruence.
Qed.

Lemma greedy_keys_descending_witness :
  0 ≤ 113 ∧ Forall (λ c, 0 < c) [1; 2; 5; 10; 25; 50] ∧
  ∃ d, find_coins_greedy 113 [1; 2; 5; 10; 25; 50] = Ok d ∧
       StronglySorted (λ a b : Z * Z, b.1 < a.1) d ∧
       well_formed [1; 2; 5; 10; 25; 50] d.
Proof.
  split; [lia|]. split; [compute_done|].
  apply (greedy_keys_descending 113 [1; 2; 5; 10; 25; 50]); [lia|compute_done].
Defined.

(** X3. [find_coins_greedy] does not depend on the order in which the
    denominations are given, whatever the input. *)
Theorem greedy_order_independent amount coins coins' :
  coins ≡ₚ coins' → find_coins_greedy amount coins = find_coins_greedy amount coins'.
Proof.
  intros Hperm. unfold find_coins_greedy. by rewrite (sorted_reverse_perm _ _ Hperm).
Qed.

Lemma greedy_order_independent_witness :
  [9; 6; 1] ≡ₚ [1; 9; 6] ∧ find_coins_greedy 12 [9; 6; 1] = find_coins_greedy 12 [1; 9; 6].
Proof.
  assert ([9; 6; 1] ≡ₚ [1; 9; 6]) as Hperm.
  { etrans; [apply perm_skip, perm_swap|apply perm_swap]. }
  split; [exact Hperm|]. exact (greedy_order_independent 12 [9; 6; 1] [1; 9; 6] Hperm).
Defined.

(** X4. The only exception [find_coins_greedy] raises is
    [ZeroDivisionError], and only for an amount other than 0 with a
    denomination 0 in the list. *)
Theorem greedy_raises_only_division_by_zero amount coins e :
  find_coins_greedy amount coins = Raise e →
  e = ZeroDivisionError ∧ 0 ∈ coins ∧ amount ≠ 0.
Proof.
  unfold find_coins_greedy. intros (-> & Hin & Hnz)%greedy_loop_raise.
  split; [done|]. split; [|done]. by apply sorted_reverse_elem.
Qed.

Lemma greedy_raises_only_division_by_zero_witness :
  find_coins_greedy 2 [0; -1] = Raise ZeroDivisionError ∧
  ZeroDivisionError = ZeroDivisionError ∧ 0 ∈ [0; -1] ∧ 2 ≠ 0.
Proof.
  assert (find_coins_greedy 2 [0; -1] = Raise ZeroDivisionError) as Hrun by by vm_compute.
  split; [exact Hrun|].
  exact (greedy_raises_only_division_by_zero 2 [0; -1] ZeroDivisionError Hrun).
Defined.

(** X5. For an amount [>= 0] and positive denominations, running
    [find_coins_greedy] again on the amount its mapping adds up to returns
    the same mapping. *)
Theorem greedy_again_on_paid amount coins :
  0 ≤ amount → Forall (λ c, 0 < c) coins →
  ∃ d, find_coins_greedy amount coins = Ok d ∧
       find_coins_greedy (weighted_sum d) coins = Ok d.
Proof.
  intros Ha Hcoins.
  destruct (find_coins_greedy_shape amount coins Ha Hcoins) as (d & Hrun & _ & _ & Hagain).
  by exists d.
Qed.

Lemma greedy_again_on_paid_witness :
  0 ≤ 14 ∧ Forall (λ c, 0 < c) [9; 6] ∧
  ∃ d, find_coins_greedy 14 [9; 6] = Ok d ∧
       find_coins_greedy (weighted_sum d) [9; 6] = Ok d.
Proof.
  split; [lia|]. split; [compute_done|].
  apply (greedy_again_on_paid 14 [9; 6]); [lia|compute_done].
Defined.

(** * Further properties of [find_min_coins] *)

(** ** The order of the returned mapping *)

Lemma reconstruct_NoDup fuel : ∀ coin_used current result d,
  reconstruct fuel coin_used current result = Some (Ok d) →
  NoDup result.*1 → NoDup d.*1.
Proof.
  induction fuel as [|fuel IH]; intros cu cur acc d; simpl.
  - case_decide; [done|]. by intros [= <-].
  - case_decide; [|by intros [= <-]].
    destruct (py_get cu cur) as [coin|e]; [|done].
    intros Hrun Hnd. eapply IH; [exact Hrun|]. by apply dict_set_NoDup.
Qed.

(** Sorted items with distinct keys have strictly increasing keys. *)
Lemma sorted_items_ascending d :
  NoDup d.*1 → StronglySorted (λ a b : Z * Z, a.1 < b.1) (sorted_items d).
Proof.
  intros Hnd. unfold sorted_items.
  assert (Transitive item_le) by (intros x y z; unfold item_le; lia).
  assert (Total item_le) by (intros x y; unfold item_le; lia).
  pose proof (StronglySorted_merge_sort item_le d) as Hsorted.
  assert (NoDup (merge_sort item_le d).*1) as Hnd'
    by by rewrite merge_sort_Permutation.
  induction Hsorted as [|x l Hl IH Hx]; [constructor|].
  rewrite fmap_cons in Hnd'. apply NoDup_cons in Hnd' as [Hfresh Hnd'].
  constructor; [by apply IH|].
  apply Forall_forall. intros y Hy. rewrite Forall_forall in Hx.
  destruct (Hx y Hy) as [?|[Heq _]]; [done|].
  destruct Hfresh. rewrite Heq. by apply list_elem_of_fmap_2.
Qed.

(** ** Denominations that change nothing *)

Lemma cost_lt_succ_self a : cost_lt (cost_succ a) a = false.
Proof. destruct a as [n|]; simpl; [|done]. apply bool_decide_eq_false. lia. Qed.

Lemma for_each_relax_zero idxs : ∀ st,
  Forall (λ i, 0 ≤ i < Z.of_nat (length st.1)) idxs →
  for_each (relax 0) idxs st = Ok st.
Proof.
  induction idxs as [|i idxs IH]; intros [mc cu] Hall; [done|].
  apply Forall_cons in Hall as [Hi Hall]. simpl in *.
  rewrite Z.sub_0_r.
  destruct (py_get_inside mc i Hi) as (a & _ & ->). simpl.
  rewrite cost_lt_succ_self. simpl. by apply IH.
Qed.

(** The denomination 0 never improves an entry. *)
Lemma relax_coin_zero amount st :
  length st.1 = Z.to_nat (amount + 1) → relax_coin amount st 0 = Ok st.
Proof.
  intros Hlen. unfold relax_coin, py_range. apply for_each_relax_zero.
  apply Forall_forall. intros i Hi%elem_of_seqZ. lia.
Qed.

Lemma for_each_relax_length coin idxs : ∀ st st',
  for_each (relax coin) idxs st = Ok st' →
  length st'.1 = length st.1 ∧ length st'.2 = length st.2.
Proof.
  induction idxs as [|i idxs IH]; intros st st'; simpl.
  - by intros [= <-].
  - destruct (relax coin st i) as [st1|e] eqn:Hstep; simpl; [|done].
    intros Hrun. apply IH in Hrun as [-> ->]. by eapply relax_length.
Qed.

Lemma for_each_coins_skip_zero amount coins : ∀ st,
  length st.1 = Z.to_nat (amount + 1) →
  for_each (relax_coin amount) coins st =
  for_each (relax_coin amount) (filter (λ c, c ≠ 0) coins) st.
Proof.
  induction coins as [|coin coins IH]; intros st Hlen; [done|].
  destruct (decide (coin = 0)) as [->|Hnz].
  - rewrite filter_cons_False by (intros ?; done). simpl.
    rewrite relax_coin_zero by done. simpl. by apply IH.
  - rewrite filter_cons_True by done. simpl.
    destruct (relax_coin amount st coin) as [st1|e] eqn:Hstep; simpl; [|done].
    apply IH. apply for_each_relax_length in Hstep as [-> _]. done.
Qed.

Lemma for_each_coins_skip_large amount coins : ∀ st,
  for_each (relax_coin amount) coins st =
  for_each (relax_coin amount) (filter (λ c, c ≤ amount) coins) st.
Proof.
  induction coins as [|coin coins IH]; intros st; [done|].
  destruct (decide (coin ≤ amount)) as [Hle|Hgt].
  - rewrite filter_cons_True by done. simpl.
    destruct (relax_coin amount st coin); simpl; [apply IH|done].
  - rewrite filter_cons_False by done. simpl.
    rewrite relax_coin_beyond by lia. simpl. apply IH.
Qed.

Lemma build_tables_skip_zero amount coins :
  build_tables amount coins = build_tables amount (filter (λ c, c ≠ 0) coins).
Proof.
  unfold build_tables.
  destruct (py_set (py_repeat Inf (amount + 1)) 0 (Fin 0)) as [mc|e] eqn:Hset;
    simpl; [|done].
  apply for_each_coins_skip_zero. simpl.
  apply py_set_length in Hset as ->. unfold py_repeat. apply length_replicate.
Qed.

Lemma build_tables_skip_large amount coins :
  build_tables amount coins = build_tables amount (filter (λ c, c ≤ amount) coins).
Proof.
  unfold build_tables.
  destruct (py_set (py_repeat Inf (amount + 1)) 0 (Fin 0)) as [mc|e]; simpl; [|done].
  apply for_each_coins_skip_large.
Qed.

Lemma find_min_coins_skip_zero fuel amount coins :
  find_min_coins fuel amount coins =
  find_min_coins fuel amount (filter (λ c, c ≠ 0) coins).
Proof. unfold find_min_coins. by rewrite <- build_tables_skip_zero. Qed.

(** X6. Whatever the input, a mapping returned by [find_min_coins] lists
    its keys in strictly increasing order. *)
Theorem min_coins_keys_ascending fuel amount coins d :
  find_min_coins fuel amount coins = Some (Ok d) →
  StronglySorted (λ a b : Z * Z, a.1 < b.1) d.
Proof.
  unfold find_min_coins.
  destruct (build_tables amount coins) as [[mc cu]|e]; [|done].
  destruct (py_get mc amount) as [c|e]; [|done].
  destruct (is_inf c); [intros [= <-]; constructor|].
  destruct (reconstruct fuel cu amount []) as [[d0|e]|] eqn:Hrec; [|done..].
  intros [= <-].
  assert (NoDup d0.*1) as Hnd.
  { eapply reconstruct_NoDup; [exact Hrec|constructor]. }
  rewrite dict_of_items_NoDup.
  - by apply sorted_items_ascending.
  - unfold sorted_items. by rewrite merge_sort_Permutation.
Qed.

Lemma min_coins_keys_ascending_witness :
  find_min_coins 113 113 [50; 25; 10; 5; 2; 1] = Some (Ok [(1, 1); (2, 1); (10, 1); (50, 2)]) ∧
  StronglySorted (λ a b : Z * Z, a.1 < b.1) [(1, 1); (2, 1); (10, 1); (50, 2)].
Proof.
  assert (find_min_coins 113 113 [50; 25; 10; 5; 2; 1]
          = Some (Ok [(1, 1); (2, 1); (10, 1); (50, 2)])) as Hrun by by vm_compute.
  split; [exact Hrun|]. exact (min_coins_keys_ascending _ _ _ _ Hrun).
Defined.

(** X7. Whatever the input, [find_min_coins] ignores the denomination 0:
    the run on a list and the run on the list without its zeros end the
    same way. *)
Theorem min_coins_ignores_zero fuel amount coins :
  find_min_coins fuel amount coins =
  find_min_coins fuel amount (filter (λ c, c ≠ 0) coins).
Proof. apply find_min_coins_skip_zero. Qed.

(** X8. Whatever the input, [find_min_coins] ignores every denomination
    larger than the amount. *)
Theorem min_coins_ignores_large fuel amount coins :
  find_min_coins fuel amount coins =
  find_min_coins fuel amount (filter (λ c, c ≤ amount) coins).
Proof. unfold find_min_coins. by rewrite <- build_tables_skip_large. Qed.

(** X9. [find_min_coins] raises exactly when the amount is negative or
    some denomination is negative, and what it raises is [IndexError]. *)
Theorem min_coins_raises_iff fuel amount coins e :
  find_min_coins fuel amount coins = Some (Raise e) ↔
  e = IndexError ∧ (amount < 0 ∨ Exists (λ c, c < 0) coins).
Proof.
  split.
  - intros Hrun.
    destruct (decide (amount < 0)) as [Hneg|Ha].
    { rewrite find_min_coins_negative_amount in Hrun by done.
      injection Hrun as <-. split; [done|by left]. }
    destruct (decide (Exists (λ c, c < 0) coins)) as [Hex|Hall].
    { rewrite find_min_coins_negative_coin in Hrun by (done || lia).
      injection Hrun as <-. split; [done|by right]. }
    exfalso. apply not_Exists_Forall in Hall; [|apply _].
    destruct (find_min_coins_spec amount (filter (λ c, c ≠ 0) coins))
      as (d & Hret & _); [lia| |].
    { apply Forall_forall. intros c [Hnz Hin]%list_elem_of_filter.
      rewrite Forall_forall in Hall. specialize (Hall c Hin). simpl in Hall. lia. }
    rewrite find_min_coins_skip_zero in Hrun.
    apply (find_min_coins_mono _ (fuel `max` Z.to_nat amount)) in Hrun; [|lia].
    rewrite Hret in Hrun by lia. done.
  - intros [-> [Hneg|Hex]].
    + by apply find_min_coins_negative_amount.
    + destruct (decide (amount < 0)) as [Hneg|Ha].
      * by apply find_min_coins_negative_amount.
      * apply find_min_coins_negative_coin; [lia|done].
Qed.

Lemma min_coins_raises_iff_witness :
  find_min_coins 5 2 [3; -1] = Some (Raise IndexError) ∧
  IndexError = IndexError ∧ (2 < 0 ∨ Exists (λ c, c < 0) [3; -1]).
Proof.
  assert (find_min_coins 5 2 [3; -1] = Some (Raise IndexError)) as Hrun by by vm_compute.
  split; [exact Hrun|].
  exact (proj1 (min_coins_raises_iff 5 2 [3; -1] IndexError) Hrun).
Defined.

(** ** The finished tables, entry by entry *)

(** A finite entry is reached by a mapping with exactly that many coins. *)
Lemma tables_entry_exact amount cs min_coins coin_used i n :
  tables_ok amount cs (min_coins, coin_used) →
  0 ≤ i ≤ amount →
  min_coins !! Z.to_nat i = Some (Fin n) →
  ∃ d, well_formed cs d ∧ weighted_sum d = i ∧ total_count d = n.
Proof.
  intros Hok Hi Hn.
  destruct (reconstruct_ok _ _ _ _ Hok (Z.to_nat i) i n [])
    as (d & _ & Hsum & Hcnt & Hwf); [lia|done|lia|split; constructor|].
  simpl in Hsum, Hcnt. exists d. split; [done|]. split; [lia|].
  destruct (expand_pays cs d) as [Hpays Hlen]; [by apply well_formed_combination|].
  rewrite Hsum in Hpays. simpl in Hpays.
  destruct (ok_opt _ _ _ Hok i _ Hi Hpays) as (n' & Hn' & Hle).
  simpl in Hn'. rewrite Hn in Hn'. injection Hn' as <-. lia.
Qed.

(** One more coin of a known denomination costs at most one more. *)
Lemma tables_entry_step amount cs min_coins coin_used i c m :
  tables_ok amount cs (min_coins, coin_used) →
  c ∈ cs → 0 < c ≤ i → i ≤ amount →
  min_coins !! Z.to_nat (i - c) = Some (Fin m) →
  ∃ n, min_coins !! Z.to_nat i = Some (Fin n) ∧ n ≤ m + 1.
Proof.
  intros Hok Hc Hci Hi Hm.
  destruct (tables_entry_exact _ _ _ _ (i - c) m Hok) as (d & Hwf & Hsum & Hcnt);
    [lia|done|].
  destruct (expand_pays cs ((c, 1) :: d)) as [Hpays Hlen].
  { constructor; [by split|by apply well_formed_combination]. }
  simpl in Hpays, Hlen.
  replace (c * 1 + weighted_sum d) with i in Hpays by lia.
  destruct (ok_opt _ _ _ Hok i _ ltac:(lia) Hpays) as (n & Hn & Hle).
  exists n. split; [done|]. simpl in Hle. lia.
Qed.

(** A denomination processed before changes nothing when it comes again. *)
Lemma for_each_relax_known amount cs c st idxs :
  tables_ok amount cs st → c ∈ cs → 0 < c →
  Forall (λ i, c ≤ i ≤ amount) idxs →
  for_each (relax c) idxs st = Ok st.
Proof.
  intros Hok Hc Hpos. destruct st as [mc cu].
  pose proof (ok_len_min _ _ _ Hok) as Hlen. simpl in Hlen.
  induction 1 as [|i idxs Hi Hall IH]; [done|]. simpl.
  destruct (py_get_inside mc (i - c)) as (a & Ha & ->); [lia|].
  destruct (py_get_inside mc i) as (b & Hb & ->); [lia|]. simpl.
  assert (cost_lt (cost_succ a) b = false) as ->; [|done].
  destruct a as [m|]; [|done].
  destruct (tables_entry_step _ _ _ _ i c m Hok) as (n & Hn & Hle); [done|lia|lia|done|].
  rewrite Hb in Hn. injection Hn as ->. simpl. apply bool_decide_eq_false. lia.
Qed.

Lemma relax_coin_known amount cs c st :
  tables_ok amount cs st → c ∈ cs → 0 < c → relax_coin amount st c = Ok st.
Proof.
  intros Hok Hc Hpos. unfold relax_coin, py_range.
  eapply for_each_relax_known; [done..|].
  apply Forall_forall. intros i Hi%elem_of_seqZ. lia.
Qed.

Lemma for_each_app {S X} (body : S → X → outcome S) xs ys : ∀ st,
  for_each body (xs ++ ys) st = for_each body xs st ≫= for_each body ys.
Proof.
  induction xs as [|x xs IH]; intros st; [done|]. simpl.
  destruct (body st x); simpl; [apply IH|done].
Qed.

Lemma build_tables_duplicate amount coins1 c coins2 :
  0 ≤ amount → Forall (λ c, 0 < c) coins1 → c ∈ coins1 →
  build_tables amount (coins1 ++ c :: coins2) = build_tables amount (coins1 ++ coins2).
Proof.
  intros Ha Hcoins Hc. unfold build_tables.
  rewrite py_set_inside by (unfold py_repeat; rewrite length_replicate; lia).
  simpl. rewrite !for_each_app. change (Z.to_nat 0) with 0%nat.
  destruct (for_each_coins_ok amount coins1 [] _ Ha Hcoins (Forall_nil_2 _)
              (tables_ok_init amount Ha)) as (st & -> & Hok).
  simpl. rewrite (relax_coin_known amount _ c st Hok); [done| |].
  - rewrite app_nil_r. by apply elem_of_reverse.
  - rewrite Forall_forall in Hcoins. auto.
Qed.

Lemma py_get_inside_inv {A} (l : list A) (i : Z) x :
  0 ≤ i < Z.of_nat (length l) → py_get l i = Ok x → l !! Z.to_nat i = Some x.
Proof.
  intros Hi Hget. destruct (py_get_inside l i Hi) as (y & Hy & Hget'). congruence.
Qed.

(** X10. For an amount [>= 0], a denomination that already occurs among
    the positive denominations before it is redundant: [find_min_coins]
    ends the same way without the repeated occurrence, whatever follows it
    in the list. *)
Theorem min_coins_duplicate_redundant fuel amount coins1 c coins2 :
  0 ≤ amount → Forall (λ c, 0 < c) coins1 → c ∈ coins1 →
  find_min_coins fuel amount (coins1 ++ c :: coins2) =
  find_min_coins fuel amount (coins1 ++ coins2).
Proof.
  intros Ha Hcoins Hc. unfold find_min_coins.
  by rewrite build_tables_duplicate.
Qed.

Lemma min_coins_duplicate_redundant_witness :
  0 ≤ 4 ∧ Forall (λ c, 0 < c) [1; 3] ∧ 3 ∈ [1; 3] ∧
  find_min_coins 4 4 ([1; 3] ++ 3 :: [2]) = find_min_coins 4 4 ([1; 3] ++ [2]).
Proof.
  split; [lia|]. split; [compute_done|]. split; [compute_done|].
  apply (min_coins_duplicate_redundant 4 4 [1; 3] 3 [2]);
    [lia|compute_done|compute_done].
Defined.

(** X11. For an amount [>= 0] and positive denominations, the two loops
    raise nothing and leave in [min_coins[i]], for every [i] from 0 to the
    amount, [inf] when [i] cannot be formed, and otherwise the least
    number of coins that form [i], which some well-formed mapping attains. *)
Theorem min_coins_table_exact amount coins :
  0 ≤ amount → Forall (λ c, 0 < c) coins →
  ∃ min_coins coin_used,
    build_tables amount coins = Ok (min_coins, coin_used) ∧
    ∀ i, 0 ≤ i ≤ amount →
      (py_get min_coins i = Ok Inf ∧ ¬ feasible coins i) ∨
      (∃ n d, py_get min_coins i = Ok (Fin n) ∧
              well_formed coins d ∧ weighted_sum d = i ∧ total_count d = n ∧
              ∀ d', combination coins d' → weighted_sum d' = i →
                    n ≤ total_count d').
Proof.
  intros Ha Hcoins.
  destruct (build_tables_ok amount coins Ha Hcoins) as ([mc cu] & Hbuild & Hok).
  exists mc, cu. split; [done|]. intros i Hi.
  pose proof (ok_len_min _ _ _ Hok) as Hlen. simpl in Hlen.
  destruct (py_get_inside mc i) as (a & Ha' & ->); [lia|].
  assert (Hopt : ∀ d', combination coins d' → weighted_sum d' = i →
            ∃ n, a = Fin n ∧ n ≤ total_count d').
  { intros d' Hd' Hs'. destruct (expand_pays _ _ Hd') as [Hpays Hlen'].
    rewrite Hs' in Hpays.
    destruct (ok_opt _ _ _ Hok i _ Hi Hpays) as (n & Hn & Hle). simpl in Hn.
    exists n. split; [congruence|lia]. }
  destruct a as [n|].
  - right. destruct (tables_entry_exact _ _ _ _ i n Hok Hi Ha') as (d & Hwf & Hsum & Hcnt).
    exists n, d. repeat (split; [done|]). intros d' Hd' Hs'.
    destruct (Hopt d' Hd' Hs') as (n' & [= <-] & Hle). done.
  - left. split; [done|]. intros (d' & Hd' & Hs').
    by destruct (Hopt d' Hd' Hs') as (n' & ? & _).
Qed.

Lemma min_coins_table_exact_witness :
  0 ≤ 12 ∧ Forall (λ c, 0 < c) [9; 6] ∧
  ∃ min_coins coin_used,
    build_tables 12 [9; 6] = Ok (min_coins, coin_used) ∧
    ∀ i, 0 ≤ i ≤ 12 →
      (py_get min_coins i = Ok Inf ∧ ¬ feasible [9; 6] i) ∨
      (∃ n d, py_get min_coins i = Ok (Fin n) ∧
              well_formed [9; 6] d ∧ weighted_sum d = i ∧ total_count d = n ∧
              ∀ d', combination [9; 6] d' → weighted_sum d' = i →
                    n ≤ total_count d').
Proof.
  split; [lia|]. split; [compute_done|].
  apply (min_coins_table_exact 12 [9; 6]); [lia|compute_done].
Defined.

(** X12. For an amount [>= 0] and positive denominations, wherever
    [min_coins[i]] is finite for an [i] from 1 to the amount,
    [coin_used[i]] is a denomination [c <= i] and [min_coins[i - c]] is
    exactly one less than [min_coins[i]]. *)
Theorem coin_used_last_coin amount coins :
  0 ≤ amount → Forall (λ c, 0 < c) coins →
  ∃ min_coins coin_used,
    build_tables amount coins = Ok (min_coins, coin_used) ∧
    ∀ i n, 0 < i ≤ amount → py_get min_coins i = Ok (Fin n) →
      ∃ c, py_get coin_used i = Ok c ∧ c ∈ coins ∧ 0 < c ≤ i ∧
           py_get min_coins (i - c) = Ok (Fin (n - 1)).
Proof.
  intros Ha Hcoins.
  destruct (build_tables_ok amount coins Ha Hcoins) as ([mc cu] & Hbuild & Hok).
  exists mc, cu. split; [done|]. intros i n Hi Hget.
  pose proof (ok_len_min _ _ _ Hok) as Hlen. simpl in Hlen.
  apply py_get_inside_inv in Hget; [|lia].
  destruct (ok_choice _ _ _ Hok i n Hi Hget) as (c & m & Hc & Hin & Hci & Hm & Hle).
  simpl in *.
  destruct (tables_entry_step _ _ _ _ i c m Hok Hin Hci ltac:(lia) Hm) as (n' & Hn' & Hle').
  rewrite Hget in Hn'. injection Hn' as <-.
  exists c. split; [by apply py_get_lookup; [lia|]|]. split; [done|]. split; [done|].
  apply py_get_lookup; [lia|]. by replace (n - 1) with m by lia.
Qed.

Lemma coin_used_last_coin_witness :
  0 ≤ 12 ∧ Forall (λ c, 0 < c) [9; 6; 1] ∧
  ∃ min_coins coin_used,
    build_tables 12 [9; 6; 1] = Ok (min_coins, coin_used) ∧
    ∀ i n, 0 < i ≤ 12 → py_get min_coins i = Ok (Fin n) →
      ∃ c, py_get coin_used i = Ok c ∧ c ∈ [9; 6; 1] ∧ 0 < c ≤ i ∧
           py_get min_coins (i - c) = Ok (Fin (n - 1)).
Proof.
  split; [lia|]. split; [compute_done|].
  apply (coin_used_last_coin 12 [9; 6; 1]); [lia|compute_done].
Defined.

(** ** How results relate across inputs *)

(** X13. For an amount [>= 0] that the positive denominations [coins] can
    form, offering further positive denominations never makes
    [find_min_coins] use more coins. *)
Theorem min_coins_more_denominations amount coins coins' :
  0 ≤ amount → Forall (λ c, 0 < c) coins' →
  (∀ c, c ∈ coins → c ∈ coins') →
  feasible coins amount →
  ∃ d d', min_coins_returns amount coins (Ok d) ∧
          min_coins_returns amount coins' (Ok d') ∧
          weighted_sum d' = amount ∧
          total_count d' ≤ total_count d.
Proof.
  intros Ha Hcoins' Hsub Hfeas.
  assert (Hcoins : Forall (λ c, 0 < c) coins).
  { rewrite Forall_forall in Hcoins' |- *. auto. }
  destruct (find_min_coins_spec amount coins Ha Hcoins)
    as (d & Hret & [[Hno _]|(_ & Hwf & Hsum & _)]); [done|].
  apply well_formed_combination in Hwf.
  destruct (find_min_coins_spec amount coins' Ha Hcoins')
    as (d' & Hret' & [[Hno' _]|(_ & _ & Hsum' & Hmin')]).
  - destruct Hno'. exists d. split; [|done]. by eapply combination_subseteq.
  - exists d, d'. repeat (split; [done|]).
    apply Hmin'; [|done]. by eapply combination_subseteq.
Qed.

Lemma min_coins_more_denominations_witness :
  0 ≤ 12 ∧ Forall (λ c, 0 < c) [9; 6; 1] ∧
  (∀ c, c ∈ [9; 1] → c ∈ [9; 6; 1]) ∧ feasible [9; 1] 12 ∧
  ∃ d d', min_coins_returns 12 [9; 1] (Ok d) ∧
          min_coins_returns 12 [9; 6; 1] (Ok d') ∧
          weighted_sum d' = 12 ∧
          total_count d' ≤ total_count d.
Proof.
  assert (∀ c, c ∈ [9; 1] → c ∈ [9; 6; 1]) as Hsub.
  { intros c Hc. apply elem_of_cons in Hc as [->|Hc]; [left|].
    right. by right. }
  assert (feasible [9; 1] 12) as Hfeas.
  { apply feasible_with_one; [lia|compute_done]. }
  split; [lia|]. split; [compute_done|]. split; [exact Hsub|]. split; [exact Hfeas|].
  apply (min_coins_more_denominations 12 [9; 1] [9; 6; 1]);
    [lia|compute_done|exact Hsub|exact Hfeas].
Defined.

(** X14. For positive denominations and two amounts [>= 0] that can both
    be formed, [find_min_coins] on their sum returns a mapping that adds
    up to the sum and has at most as many coins as the mappings for the
    two amounts together. *)
Theorem min_coins_sum_of_amounts a b coins :
  0 ≤ a → 0 ≤ b → Forall (λ c, 0 < c) coins →
  feasible coins a → feasible coins b →
  ∃ da db dab, min_coins_returns a coins (Ok da) ∧
               min_coins_returns b coins (Ok db) ∧
               min_coins_returns (a + b) coins (Ok dab) ∧
               weighted_sum dab = a + b ∧
               total_count dab ≤ total_count da + total_count db.
Proof.
  intros Ha Hb Hcoins Hfa Hfb.
  destruct (find_min_coins_spec a coins Ha Hcoins)
    as (da & Hra & [[Hno _]|(_ & Hwa & Hsa & _)]); [done|].
  destruct (find_min_coins_spec b coins Hb Hcoins)
    as (db & Hrb & [[Hno _]|(_ & Hwb & Hsb & _)]); [done|].
  apply well_formed_combination in Hwa, Hwb.
  assert (combination coins (da ++ db)) as Hcomb by by apply Forall_app.
  assert (weighted_sum (da ++ db) = a + b) as Hsum
    by (rewrite weighted_sum_app; lia).
  destruct (find_min_coins_spec (a + b) coins ltac:(lia) Hcoins)
    as (dab & Hrab & [[Hno _]|(_ & _ & Hsab & Hmin)]).
  - destruct Hno. by exists (da ++ db).
  - exists da, db, dab. repeat (split; [done|]).
    rewrite <- total_count_app. by apply Hmin.
Qed.

Lemma min_coins_sum_of_amounts_witness :
  0 ≤ 6 ∧ 0 ≤ 9 ∧ Forall (λ c, 0 < c) [9; 6; 1] ∧
  feasible [9; 6; 1] 6 ∧ feasible [9; 6; 1] 9 ∧
  ∃ da db dab, min_coins_returns 6 [9; 6; 1] (Ok da) ∧
               min_coins_returns 9 [9; 6; 1] (Ok db) ∧
               min_coins_returns (6 + 9) [9; 6; 1] (Ok dab) ∧
               weighted_sum dab = 6 + 9 ∧
               total_count dab ≤ total_count da + total_count db.
Proof.
  assert (feasible [9; 6; 1] 6) as H6 by (apply feasible_with_one; [lia|compute_done]).
  assert (feasible [9; 6; 1] 9) as H9 by (apply feasible_with_one; [lia|compute_done]).
  split; [lia|]. split; [lia|]. split; [compute_done|].
  split; [exact H6|]. split; [exact H9|].
  apply (min_coins_sum_of_amounts 6 9 [9; 6; 1]);
    [lia|lia|compute_done|exact H6|exact H9].
Defined.

(** X15. With a single positive denomination [c] and an amount [>= 0],
    [find_min_coins] returns {c: amount // c} when the amount is positive
    and a multiple of [c], and the empty mapping otherwise. *)
Theorem min_coins_single_denomination amount c :
  0 ≤ amount → 0 < c →
  min_coins_returns amount [c]
    (Ok (if decide (0 < amount ∧ amount `mod` c = 0)
         then [(c, amount `div` c)] else [])).
Proof.
  intros Ha Hc.
  pose proof (Z.div_mod amount c ltac:(lia)) as Hdm.
  destruct (find_min_coins_spec amount [c] Ha)
    as (d & Hret & [[Hno ->]|(_ & [Hnd Hall] & Hsum & _)]).
  { by repeat constructor. }
  - rewrite decide_False; [done|]. intros [Hpos Hmod]. destruct Hno.
    exists [(c, amount `div` c)]. split.
    + constructor; [|constructor]. simpl. split; [left|].
      apply Z.div_pos; lia.
    + simpl. lia.
  - destruct d as [|[k v] d].
    { simpl in Hsum. subst amount. by rewrite decide_False by lia. }
    apply Forall_cons in Hall as [[Hk Hv] Hall]. simpl in Hk, Hv.
    apply list_elem_of_singleton in Hk as ->.
    destruct d as [|[k' v'] d].
    + simpl in Hsum. assert (amount `div` c = v) as Hq.
      { symmetry. apply (Z.div_unique_exact amount c v); lia. }
      assert (amount `mod` c = 0) as Hm by lia.
      rewrite decide_True by (split; [nia|done]). by rewrite Hq.
    + apply Forall_cons in Hall as [[Hk' _] _]. simpl in Hk'.
      apply list_elem_of_singleton in Hk' as ->.
      rewrite !fmap_cons in Hnd. simpl in Hnd.
      apply NoDup_cons in Hnd as [Hfresh _]. destruct Hfresh. left.
Qed.

Lemma min_coins_single_denomination_witness :
  0 ≤ 12 ∧ 0 < 4 ∧
  min_coins_returns 12 [4]
    (Ok (if decide (0 < 12 ∧ 12 `mod` 4 = 0) then [(4, 12 `div` 4)] else [])).
Proof.
  split; [lia|]. split; [lia|].
  apply (min_coins_single_denomination 12 4); lia.
Defined.

(** * A repeated denomination in [find_coins_greedy] *)

(** Meeting the same denomination twice in a row is meeting it once. *)
Lemma greedy_loop_twice coin rest amount result :
  greedy_loop (coin :: coin :: rest) amount result =
  greedy_loop (coin :: rest) amount result.
Proof.
  cbn [greedy_loop].
  destruct (decide (amount = 0)) as [|Hnz]; [done|].
  destruct (decide (coin = 0)) as [|Hcz]; [done|].
  destruct (decide (amount `div` coin > 0)) as [Hcount|Hcount].
  - destruct (decide (amount `mod` coin = 0)) as [->|Hmz].
    + by rewrite greedy_loop_zero.
    + rewrite Z.mod_mod by done.
      assert ((amount `mod` coin) `div` coin = 0) as ->.
      { apply Z.div_small_iff; [done|].
        destruct (decide (0 < coin)).
        - left. apply Z.mod_pos_bound. lia.
        - right. apply Z.mod_neg_bound. lia. }
      by rewrite decide_False by lia.
  - done.
Qed.

Lemma greedy_loop_app_cong l1 l l' :
  (∀ amount result, greedy_loop l amount result = greedy_loop l' amount result) →
  ∀ amount result,
    greedy_loop (l1 ++ l) amount result = greedy_loop (l1 ++ l') amount result.
Proof.
  intros Heq. induction l1 as [|coin l1 IH]; intros amount result; [apply Heq|].
  simpl. repeat case_decide; try done; apply IH.
Qed.

Lemma sorted_reverse_duplicate coins c :
  c ∈ coins →
  ∃ l1 l2, sorted_reverse coins = l1 ++ c :: l2 ∧
           sorted_reverse (c :: coins) = l1 ++ c :: c :: l2.
Proof.
  intros Hc.
  assert (Transitive (flip Z.le)) by (intros x y z; unfold flip; lia).
  assert (AntiSymm (=) (flip Z.le)) by (intros x y; unfold flip; lia).
  assert (Total (flip Z.le)) by (intros x y; unfold flip; lia).
  pose proof (StronglySorted_merge_sort (flip Z.le) coins) as Hsorted.
  pose proof (merge_sort_Permutation (flip Z.le) coins) as Hperm.
  fold (sorted_reverse coins) in Hsorted, Hperm.
  apply sorted_reverse_elem, list_elem_of_split in Hc as (l1 & l2 & Heq).
  exists l1, l2. split; [done|]. rewrite Heq in Hsorted, Hperm.
  unfold sorted_reverse. apply (StronglySorted_unique (flip Z.le)).
  - by apply StronglySorted_merge_sort.
  - apply StronglySorted_app in Hsorted as (Hcross & Hs1 & Hs2).
    apply StronglySorted_app_2; [|done|].
    + intros x1 x2 Hx1 Hx2. apply elem_of_cons in Hx2 as [->|Hx2].
      * apply Hcross; [done|left].
      * by apply Hcross.
    + constructor; [done|]. constructor; [by unfold flip|].
      by apply StronglySorted_cons in Hs2 as [? _].
  - rewrite merge_sort_Permutation, <- Hperm.
    by rewrite <- !Permutation_middle.
Qed.

(** X16. Whatever the input, repeating a denomination that is already in
    the list does not change what [find_coins_greedy] returns or raises. *)
Theorem greedy_duplicate_redundant amount coins c :
  c ∈ coins →
  find_coins_greedy amount (c :: coins) = find_coins_greedy amount coins.
Proof.
  intros Hc. unfold find_coins_greedy.
  destruct (sorted_reverse_duplicate coins c Hc) as (l1 & l2 & -> & ->).
  apply greedy_loop_app_cong. intros a r. apply greedy_loop_twice.
Qed.

Lemma greedy_duplicate_redundant_witness :
  6 ∈ [9; 6; 1] ∧
  find_coins_greedy 12 (6 :: [9; 6; 1]) = find_coins_greedy 12 [9; 6; 1].
Proof.
  assert (6 ∈ [9; 6; 1]) as Hin by compute_done.
  split; [exact Hin|]. exact (greedy_duplicate_redundant 12 [9; 6; 1] 6 Hin).
Defined.
